(** * local-first-auth: the team graph, seniority, merge, sync maps and the
      [Team] facade

    A shallow embedding of the parts of [packages/auth/src/team] and of the
    [crdx] graph layer that the team-membership properties are about.

    - JavaScript strings are [string]; a [Record<Hash, Link>] whose
      insertion order the code observes ([Object.values(..).find]) is an
      association list in insertion order; a [Map<Hash, Link>] whose order is
      not observed is a [gmap].
    - A function that can throw returns a [result]; a method of the [Team]
      class is a function from the instance to an outcome and the instance
      afterwards, so that what a failed call leaves behind can be stated.
    - Key material is left out of a keyset: what the properties below observe
      of a keyset is its scope and its generation. *)

From Stdlib Require Import ZArith Lia String Ascii List Bool.
From stdpp Require Import base option list strings gmap sets.

Local Open Scope string_scope.
Local Open Scope list_scope.
Local Open Scope Z_scope.

(** ** Results of functions that can throw *)

Inductive result (A : Type) : Type :=
| Ok (a : A)
| Throw (msg : string).
Arguments Ok {A} a.
Arguments Throw {A} msg.

#[global] Instance result_ret : MRet result := fun A a => Ok a.
#[global] Instance result_bind : MBind result := fun A B f m =>
  match m with
  | Ok a => f a
  | Throw msg => Throw msg
  end.

(** [assert(value, message)] of [util/index.js] on a boolean condition. *)
Definition assert (cond : bool) (msg : string) : result unit :=
  if cond then Ok tt else Throw msg.

(** [assert(value, message)] on a possibly undefined value. *)
Definition assertSome {A} (v : option A) (msg : string) : result A :=
  match v with
  | Some a => Ok a
  | None => Throw msg
  end.

(** ** Data model ([team/types.ts], [crdx]) *)

Definition Hash := string.

Inductive KeyType := TEAM | ROLE | USER | DEVICE | SERVER | EPHEMERAL.

#[global] Instance KeyType_eq_dec : EqDecision KeyType.
Proof. solve_decision. Defined.

(** The name of a [KeyType] member is its string value ([KeyType.TEAM] is
    used as a scope name in [TEAM_SCOPE]). *)
Definition keyTypeName (t : KeyType) : string :=
  match t with
  | TEAM => "TEAM" | ROLE => "ROLE" | USER => "USER"
  | DEVICE => "DEVICE" | SERVER => "SERVER" | EPHEMERAL => "EPHEMERAL"
  end.

Record KeyScope := mkScope { scopeType : KeyType; scopeName : string }.

#[global] Instance KeyScope_eq_dec : EqDecision KeyScope.
Proof. solve_decision. Defined.

(** A keyset as the graph records it: scope and generation. *)
Record Keyset := mkKeyset { keyScope : KeyScope; generation : nat }.

#[global] Instance Keyset_eq_dec : EqDecision Keyset.
Proof. solve_decision. Defined.

Record Lockbox := mkLockbox { contents : Keyset; recipient : Keyset }.

#[global] Instance Lockbox_eq_dec : EqDecision Lockbox.
Proof. solve_decision. Defined.

Record Device := mkDevice {
  deviceUserId : string;
  deviceName : string;
  deviceKeys : Keyset }.

#[global] Instance Device_eq_dec : EqDecision Device.
Proof. solve_decision. Defined.

Record Member := mkMember {
  userId : string;
  userName : string;
  memberKeys : Keyset;
  roles : list string;
  devices : list Device }.

#[global] Instance Member_eq_dec : EqDecision Member.
Proof. solve_decision. Defined.

Record Role := mkRole { roleName : string }.

#[global] Instance Role_eq_dec : EqDecision Role.
Proof. solve_decision. Defined.

Record Server := mkServer { host : string; serverKeys : Keyset }.

#[global] Instance Server_eq_dec : EqDecision Server.
Proof. solve_decision. Defined.

(** An invitation as team state holds it. [invitationUserId] is set for a
    device invitation. *)
Record Invitation := mkInvitation {
  invitationId : string;
  publicKey : string;
  expiration : Z;
  maxUses : Z;
  uses : Z;
  revoked : bool;
  invitationUserId : option string }.

#[global] Instance Invitation_eq_dec : EqDecision Invitation.
Proof. solve_decision. Defined.

(** [TeamAction]: the type tag with its payload. *)
Inductive TeamAction :=
| ROOT (name : string) (rootMember : Member) (rootDevice : Device)
       (lockboxes : list Lockbox)
| ADD_MEMBER (member : Member) (memberRoles : list string)
             (lockboxes : list Lockbox)
| REMOVE_MEMBER (uid : string) (lockboxes : list Lockbox)
| ADD_ROLE (role : Role) (lockboxes : list Lockbox)
| REMOVE_ROLE (rname : string)
| ADD_MEMBER_ROLE (uid rname : string) (lockboxes : list Lockbox)
| REMOVE_MEMBER_ROLE (uid rname : string) (lockboxes : list Lockbox)
| ADD_DEVICE (device : Device) (lockboxes : list Lockbox)
| REMOVE_DEVICE (uid dname : string) (lockboxes : list Lockbox)
| INVITE_MEMBER (invitation : Invitation)
| INVITE_DEVICE (invitation : Invitation)
| REVOKE_INVITATION (id : string)
| ADMIT_MEMBER (id uname : string) (mkeys : Keyset) (lockboxes : list Lockbox)
| ADMIT_DEVICE (id uid dname : string) (dkeys : Keyset)
               (lockboxes : list Lockbox)
| CHANGE_MEMBER_KEYS (newKeys : Keyset) (lockboxes : list Lockbox)
| CHANGE_DEVICE_KEYS (newKeys : Keyset) (lockboxes : list Lockbox)
| CHANGE_SERVER_KEYS (newKeys : Keyset) (lockboxes : list Lockbox)
| ADD_SERVER (server : Server) (lockboxes : list Lockbox)
| REMOVE_SERVER (h : string)
| ROTATE_KEYS (uid : string) (lockboxes : list Lockbox).

#[global] Instance TeamAction_eq_dec : EqDecision TeamAction.
Proof. solve_decision. Defined.

(** A link: its hash, and of its body the action, the author
    ([body.userId]) and the predecessor hashes ([body.prev]). *)
Record TeamLink := mkLink {
  hash : Hash;
  action : TeamAction;
  author : string;
  prev : list Hash }.

#[global] Instance TeamLink_eq_dec : EqDecision TeamLink.
Proof. solve_decision. Defined.

(** [TeamGraph]. [links] is the object [chain.links] with its entries in
    insertion order, which is the order [Object.values] yields. *)
Record TeamGraph := mkGraph {
  root : Hash;
  head : list Hash;
  links : list (Hash * TeamLink) }.

(** [chain.links[h]] *)
Definition getLink (chain : TeamGraph) (h : Hash) : option TeamLink :=
  snd <$> List.find (fun e => bool_decide (fst e = h)) (links chain).

(** ** Merging two graphs ([crdx], missing from the sources) *)

Module store.

(** [h in links] *)
Definition hasLink (ls : list (Hash * TeamLink)) (h : Hash) : bool :=
  existsb (fun e => bool_decide (fst e = h)) ls.

(** Modelled from the spec: union of links; duplicate hashes are discarded.
    The union is an object again, and [Object.values] yields its entries
    in the order in which they were put there: those of [a] as [a] has
    them, then those of [b] under a hash that [a] does not hold. *)
Definition mergeLinks (a b : list (Hash * TeamLink))
  : list (Hash * TeamLink) :=
  a ++ List.filter (fun e => negb (hasLink a (fst e))) b.

(** Modelled from the spec: [h] has a child among the links. *)
Definition hasChild (ls : list (Hash * TeamLink)) (h : Hash) : bool :=
  existsb (fun e => bool_decide (h ∈ prev (snd e))) ls.

(** Modelled from the spec: head = hashes with no child. *)
Definition headOf (ls : list (Hash * TeamLink)) : list Hash :=
  List.filter (fun h => negb (hasChild ls h)) (fst <$> ls).

(** Modelled from the spec: merge(a, b): union of links; head = hashes with
    no child across the union. *)
Definition merge (a b : TeamGraph) : TeamGraph :=
  let ls := mergeLinks (links a) (links b) in
  mkGraph (root a) (headOf ls) ls.

(** Modelled from the spec: invariant (c) of the data model: the head is the
    childless hashes. *)
Definition headIsChildless (g : TeamGraph) : Prop :=
  head g = headOf (links g).

(** Modelled from the spec: content-addressed equality: a hash that two
    graphs both have names the same link in both. *)
Definition sameContent (a b : TeamGraph) : Prop :=
  forall h l l', getLink a h = Some l -> getLink b h = Some l' -> l = l'.

(** Two graphs hold the same links under the same hashes and have the same
    root and the same hashes for head, in whatever order. *)
Definition sameLinks (a b : TeamGraph) : Prop :=
  root a = root b /\
  (forall h, getLink a h = getLink b h) /\
  (forall h, h ∈ head a <-> h ∈ head b).

End store.

(** ** Seniority ([team/bySeniority.ts]) *)

Module Seniority.

(** Modelled from the spec: [isPredecessor] of [crdx] is missing from the
    sources; the spec has it as standard DAG reachability. [predecessors n
    chain h] follows [prev] from [h] for at most [n] steps. *)
Fixpoint predecessors (n : nat) (chain : TeamGraph) (h : Hash) : list Hash :=
  match n with
  | O => []
  | S n' =>
      match getLink chain h with
      | None => []
      | Some l => prev l ++ flat_map (predecessors n' chain) (prev l)
      end
  end.

(** Modelled from the spec: [isPredecessor(chain, a, b)]: there is a path
    from [b] back to [a]. No path is longer than the chain has links. *)
Definition isPredecessor (chain : TeamGraph) (a b : TeamLink) : bool :=
  bool_decide (hash a ∈ predecessors (length (links chain)) chain (hash b)).

(** [rootLink.body.userId === userId]; reading [body] of a missing root link
    is a [TypeError]. *)
Definition isFounder (chain : TeamGraph) (u : string) : result bool :=
  rootLink ← assertSome (getLink chain (root chain))
    "TypeError: Cannot read properties of undefined (reading 'body')";
  Ok (bool_decide (author rootLink = u)).

Definition addedMember (u : string) (link : TeamLink) : bool :=
  match action link with
  | ADD_MEMBER member _ _ => bool_decide (userId member = u)
  | _ => false
  end.

Definition linkThatAddedMember (chain : TeamGraph) (u : string)
  : result TeamLink :=
  assertSome (List.find (addedMember u) (snd <$> links chain))
    ("Could not find link that added member " +:+ u).

Definition bySeniority (chain : TeamGraph) (a b : string) : result Z :=
  fa ← isFounder chain a;
  if fa : bool then Ok (-1) else
  fb ← isFounder chain b;
  if fb : bool then Ok 1 else
  addedA ← linkThatAddedMember chain a;
  addedB ← linkThatAddedMember chain b;
  if isPredecessor chain addedA addedB then Ok (-1) else Ok 1.

(** Two links are concurrent when neither is a predecessor of the other. *)
Definition concurrent (chain : TeamGraph) (x y : TeamLink) : bool :=
  negb (isPredecessor chain x y) && negb (isPredecessor chain y x).

Definition ks (t : KeyType) (n : string) : Keyset := mkKeyset (mkScope t n) 0.
Definition user (n : string) (rs : list string) : Member :=
  mkMember n n (ks USER n) rs [].

(** A team that Alice founds; she adds Bob with the admin role, and then,
    while the two are disconnected, Alice adds Charlie and Bob adds Dwight.
    This is the merged graph: links [c] and [d] both follow [b] only. *)

Definition concurrentAdds : TeamGraph :=
  let r := mkLink "r" (ROOT "team" (user "alice" [])
                         (mkDevice "alice" "laptop" (ks DEVICE "alice::laptop"))
                         []) "alice" [] in
  let b := mkLink "b" (ADD_MEMBER (user "bob" ["admin"]) ["admin"] [])
                  "alice" ["r"] in
  let c := mkLink "c" (ADD_MEMBER (user "charlie" []) [] []) "alice" ["b"] in
  let d := mkLink "d" (ADD_MEMBER (user "dwight" []) [] []) "bob" ["b"] in
  mkGraph "r" ["c"; "d"] [("r", r); ("b", b); ("c", c); ("d", d)].

End Seniority.

(** ** Team state ([team/types.ts], [team/constants.ts]) *)

(** [TeamState]. The fields [head] and [roles] are [stateHead] and
    [teamRoles] here, the plain names being those of [TeamGraph] and of
    [Member]. *)
Record TeamState := mkState {
  stateHead : list Hash;
  teamName : string;
  members : list Member;
  servers : list Server;
  teamRoles : list Role;
  lockboxes : list Lockbox;
  invitations : gmap string Invitation;
  removedMembers : list Member;
  removedDevices : list Device;
  removedServers : list Server;
  pendingKeyRotations : list string }.

Definition ALL : string := "ALL".

Definition initialState : TeamState :=
  mkState [] "" [] [] [] [] ∅ [] [] [] [].

(** Modelled from the spec: the constant [ADMIN] of [role/index.js], which is
    missing from the sources, is the name of the admin role. *)
Definition ADMIN : string := "admin".

Definition TEAM_SCOPE : KeyScope := mkScope TEAM (keyTypeName TEAM).
Definition ADMIN_SCOPE : KeyScope := mkScope ROLE ADMIN.
Definition EPHEMERAL_SCOPE : KeyScope :=
  mkScope EPHEMERAL (keyTypeName EPHEMERAL).

Definition setHead (h : list Hash) (s : TeamState) : TeamState :=
  mkState h (teamName s) (members s) (servers s) (teamRoles s) (lockboxes s)
    (invitations s) (removedMembers s) (removedDevices s) (removedServers s)
    (pendingKeyRotations s).
Definition setTeamName (n : string) (s : TeamState) : TeamState :=
  mkState (stateHead s) n (members s) (servers s) (teamRoles s) (lockboxes s)
    (invitations s) (removedMembers s) (removedDevices s) (removedServers s)
    (pendingKeyRotations s).
Definition setMembers (ms : list Member) (s : TeamState) : TeamState :=
  mkState (stateHead s) (teamName s) ms (servers s) (teamRoles s) (lockboxes s)
    (invitations s) (removedMembers s) (removedDevices s) (removedServers s)
    (pendingKeyRotations s).
Definition setServers (ss : list Server) (s : TeamState) : TeamState :=
  mkState (stateHead s) (teamName s) (members s) ss (teamRoles s) (lockboxes s)
    (invitations s) (removedMembers s) (removedDevices s) (removedServers s)
    (pendingKeyRotations s).
Definition setRoles (rs : list Role) (s : TeamState) : TeamState :=
  mkState (stateHead s) (teamName s) (members s) (servers s) rs (lockboxes s)
    (invitations s) (removedMembers s) (removedDevices s) (removedServers s)
    (pendingKeyRotations s).
Definition setLockboxes (ls : list Lockbox) (s : TeamState) : TeamState :=
  mkState (stateHead s) (teamName s) (members s) (servers s) (teamRoles s) ls
    (invitations s) (removedMembers s) (removedDevices s) (removedServers s)
    (pendingKeyRotations s).
Definition setInvitations (i : gmap string Invitation) (s : TeamState)
  : TeamState :=
  mkState (stateHead s) (teamName s) (members s) (servers s) (teamRoles s)
    (lockboxes s) i (removedMembers s) (removedDevices s) (removedServers s)
    (pendingKeyRotations s).
Definition setRemovedMembers (ms : list Member) (s : TeamState) : TeamState :=
  mkState (stateHead s) (teamName s) (members s) (servers s) (teamRoles s)
    (lockboxes s) (invitations s) ms (removedDevices s) (removedServers s)
    (pendingKeyRotations s).
Definition setRemovedDevices (ds : list Device) (s : TeamState) : TeamState :=
  mkState (stateHead s) (teamName s) (members s) (servers s) (teamRoles s)
    (lockboxes s) (invitations s) (removedMembers s) ds (removedServers s)
    (pendingKeyRotations s).
Definition setRemovedServers (ss : list Server) (s : TeamState) : TeamState :=
  mkState (stateHead s) (teamName s) (members s) (servers s) (teamRoles s)
    (lockboxes s) (invitations s) (removedMembers s) (removedDevices s) ss
    (pendingKeyRotations s).
Definition setPendingKeyRotations (us : list string) (s : TeamState)
  : TeamState :=
  mkState (stateHead s) (teamName s) (members s) (servers s) (teamRoles s)
    (lockboxes s) (invitations s) (removedMembers s) (removedDevices s)
    (removedServers s) us.

Definition setMemberRoles (rs : list string) (m : Member) : Member :=
  mkMember (userId m) (userName m) (memberKeys m) rs (devices m).
Definition setMemberDevices (ds : list Device) (m : Member) : Member :=
  mkMember (userId m) (userName m) (memberKeys m) (roles m) ds.
Definition setMemberKeys (k : Keyset) (m : Member) : Member :=
  mkMember (userId m) (userName m) k (roles m) (devices m).

(** ** Lockboxes ([lockbox/index.js], missing from the sources) *)

Module lockbox.

(** Modelled from the spec: [lockbox.create(contents, recipientPublic)]. The
    envelope is the pair of what it holds and whom it is sealed for; the
    ciphertext is left out. *)
Definition create (contentKeys recipientKeys : Keyset) : Lockbox :=
  mkLockbox contentKeys recipientKeys.

(** Modelled from the spec: [lockbox.rotate]: same recipient scope, the next
    generation of the contents, and of the recipient when new recipient keys
    come with the call. *)
Definition rotate (oldLockbox : Lockbox) (newContents : Keyset)
    (updatedRecipientKeys : option Keyset) : Lockbox :=
  mkLockbox
    (mkKeyset (keyScope newContents) (S (generation (contents oldLockbox))))
    (match updatedRecipientKeys with
     | Some k =>
         mkKeyset (keyScope (recipient oldLockbox))
                  (S (generation (recipient oldLockbox)))
     | None => recipient oldLockbox
     end).

End lockbox.

(** Modelled from the spec: [createKeyset(scope)] of [crdx]: a fresh keyset
    for the scope, at generation 0. *)
Definition createKeyset (scope : KeyScope) : Keyset := mkKeyset scope 0.

(** Modelled from the spec: [scopesMatch(a, b)] of [util/index.js], which is
    missing from the sources: a scope is a type and a name, and two match
    when they have both in common. *)
Definition scopesMatch (a b : KeyScope) : bool := bool_decide (a = b).

(** ** Selectors ([team/selectors], missing from the sources) *)

Module select.

(** Modelled from the spec: the selectors are read-only queries over the
    state; each is what its name and the doc comment of its caller in
    [Team.ts] say. *)
Definition hasMember (s : TeamState) (u : string) : bool :=
  existsb (fun m => bool_decide (userId m = u)) (members s).

(** Modelled from the spec: [select.memberWasRemoved]: a removed member has
    that id. *)
Definition memberWasRemoved (s : TeamState) (u : string) : bool :=
  existsb (fun m => bool_decide (userId m = u)) (removedMembers s).

(** Modelled from the spec: [select.hasServer]: a server has that host. *)
Definition hasServer (s : TeamState) (h : string) : bool :=
  existsb (fun x => bool_decide (host x = h)) (servers s).

(** Modelled from the spec: [select.serverWasRemoved]: a removed server has
    that host. *)
Definition serverWasRemoved (s : TeamState) (h : string) : bool :=
  existsb (fun x => bool_decide (host x = h)) (removedServers s).

(** [options.includeRemoved] *)
Record Options := mkOptions { includeRemoved : bool }.

(** Modelled from the spec: [select.member], which is missing from the
    sources: the member by that id, looked for among the removed
    members too when the options say so; throws when there is none. *)
Definition member (s : TeamState) (u : string) (options : Options)
  : result Member :=
  let membersToSearch :=
    members s ++ (if includeRemoved options then removedMembers s else []) in
  assertSome
    (List.find (fun m => bool_decide (userId m = u)) membersToSearch)
    ("A member named '" +:+ u +:+ "' was not found").

(** Modelled from the spec: [select.server]: as [select.member], for servers. *)
Definition server (s : TeamState) (h : string) (options : Options)
  : result Server :=
  let serversToSearch :=
    servers s ++ (if includeRemoved options then removedServers s else []) in
  assertSome
    (List.find (fun x => bool_decide (host x = h)) serversToSearch)
    ("A server with host '" +:+ h +:+ "' was not found").

(** Modelled from the spec: [select.memberHasRole]: a member by that id has
    the role. *)
Definition memberHasRole (s : TeamState) (u r : string) : bool :=
  existsb (fun m => bool_decide (userId m = u) && bool_decide (r ∈ roles m))
          (members s).

(** Modelled from the spec: [select.memberIsAdmin]: the member has the admin
    role. *)
Definition memberIsAdmin (s : TeamState) (u : string) : bool :=
  memberHasRole s u ADMIN.

(** Modelled from the spec: [select.hasRole]: the team has a role by that
    name. *)
Definition hasRole (s : TeamState) (r : string) : bool :=
  existsb (fun x => bool_decide (roleName x = r)) (teamRoles s).

(** Modelled from the spec: [select.role]: the role by that name; throws
    when there is none. *)
Definition role (s : TeamState) (r : string) : result Role :=
  assertSome (List.find (fun x => bool_decide (roleName x = r)) (teamRoles s))
    ("A role called '" +:+ r +:+ "' was not found").

(** Modelled from the spec: [select.membersInRole]: the members who have the
    role. *)
Definition membersInRole (s : TeamState) (r : string) : list Member :=
  List.filter (fun m => bool_decide (r ∈ roles m)) (members s).

(** Modelled from the spec: [select.admins]: the members in the admin role. *)
Definition admins (s : TeamState) : list Member := membersInRole s ADMIN.

(** Modelled from the spec: the devices of the current member by that id (a
    [Member] holds its devices). *)
Definition memberDevices (s : TeamState) (u : string) : list Device :=
  match List.find (fun m => bool_decide (userId m = u)) (members s) with
  | Some m => devices m
  | None => []
  end.

(** Modelled from the spec: [select.hasDevice]: the member has a device by
    that name. *)
Definition hasDevice (s : TeamState) (u d : string) : bool :=
  existsb (fun x => bool_decide (deviceName x = d)) (memberDevices s u).

(** Modelled from the spec: [select.device], which is missing from the
    sources: the device of that member by that name, looked for
    among the removed devices too when the options say so. *)
Definition device (s : TeamState) (u d : string) (options : Options)
  : result Device :=
  let devicesToSearch :=
    memberDevices s u ++
    (if includeRemoved options
     then List.filter (fun x => bool_decide (deviceUserId x = u))
                      (removedDevices s)
     else []) in
  assertSome
    (List.find (fun x => bool_decide (deviceName x = d)) devicesToSearch)
    ("Device " +:+ d +:+ " not found").

(** Modelled from the spec: [select.hasInvitation]: the state holds an
    invitation under that id. *)
Definition hasInvitation (s : TeamState) (id : string) : bool :=
  bool_decide (is_Some (invitations s !! id)).

(** Modelled from the spec: [select.getInvitation]: the invitation under
    that id; throws when there is none. *)
Definition getInvitation (s : TeamState) (id : string) : result Invitation :=
  assertSome (invitations s !! id) ("No invitation with id '" +:+ id +:+ "' found").

(** Modelled from the spec: [visibleScopes(state, fromScope)] returns all
    scopes reachable via lockbox edges from [fromScope]: those of the
    contents of a lockbox sealed for the scope, and what is visible from
    them. [n] bounds the length of the lockbox chains followed. *)
Fixpoint visibleScopesN (n : nat) (lbs : list Lockbox) (scope : KeyScope)
  : list KeyScope :=
  match n with
  | O => []
  | S n' =>
      let scopes :=
        keyScope ∘ contents <$>
          List.filter (fun l => scopesMatch (keyScope (recipient l)) scope) lbs in
      remove_dups (scopes ++ flat_map (visibleScopesN n' lbs) scopes)
  end.

(** Modelled from the spec: [visibleScopes] on the lockboxes of the state;
    no chain of lockboxes is longer than there are lockboxes. *)
Definition visibleScopes (s : TeamState) (scope : KeyScope) : list KeyScope :=
  visibleScopesN (length (lockboxes s)) (lockboxes s) scope.

(** Modelled from the spec: the latest generation among keysets. *)
Definition maxGeneration (ks : list Keyset) : nat :=
  foldr Nat.max O (generation <$> ks).

(** Modelled from the spec: [lockboxesInScope(state, scope)], which is
    missing from the sources: the lockboxes that hold the keys of the
    scope, at the latest generation of them. *)
Definition lockboxesInScope (s : TeamState) (scope : KeyScope) : list Lockbox :=
  let inScope :=
    List.filter (fun l => scopesMatch (keyScope (contents l)) scope)
                (lockboxes s) in
  let latest := maxGeneration (contents <$> inScope) in
  List.filter (fun l => bool_decide (generation (contents l) = latest)) inScope.

(** Modelled from the spec: the keysets a holder of [held] can read: those of
    the lockboxes sealed for a keyset it holds, and so on along the chain. *)
Fixpoint visibleKeysN (n : nat) (lbs : list Lockbox) (held : list Keyset)
  : list Keyset :=
  match n with
  | O => held
  | S n' =>
      let opened :=
        contents <$>
          List.filter (fun l => bool_decide (recipient l ∈ held)) lbs in
      visibleKeysN n' lbs (remove_dups (held ++ opened))
  end.

(** Modelled from the spec: what the device can read of the lockboxes of
    the state, starting from its own keys. *)
Definition visibleKeys (s : TeamState) (deviceKeys : Keyset) : list Keyset :=
  visibleKeysN (length (lockboxes s)) (lockboxes s) [deviceKeys].

(** Modelled from the spec: [select.keys(state, deviceKeys, scope)], which is
    missing from the sources: of the keysets of the scope that
    the device can read, the one at the generation asked for, the latest by
    default; throws when the device can read none. *)
Definition keys (s : TeamState) (deviceKeys : Keyset) (scope : KeyScope)
    (gen : option nat) : result Keyset :=
  let keyring :=
    List.filter (fun k => scopesMatch (keyScope k) scope)
                (visibleKeys s deviceKeys) in
  _ ← assert (negb (bool_decide (keyring = [])))
        ("Couldn't find keys: " +:+ keyTypeName (scopeType scope) +:+ " "
           +:+ scopeName scope);
  let g := default (maxGeneration keyring) gen in
  assertSome (List.find (fun k => bool_decide (generation k = g)) keyring)
    "TypeError: Cannot read properties of undefined".

End select.

(** ** The reducer ([team/reducer.ts] and [team/transforms], missing from the
       sources) *)

Module transforms.

(** Modelled from the spec: one transform per action type, total and
    deterministic. A transform whose action the spec does not describe does
    what the name of the action says to the field of the state that holds
    such things. *)
Definition collectLockboxes (new : list Lockbox) (s : TeamState) : TeamState :=
  setLockboxes (lockboxes s ++ new) s.

(** Modelled from the spec: a change to the members by that id. *)
Definition mapMember (u : string) (f : Member -> Member) (s : TeamState)
  : TeamState :=
  setMembers
    ((fun m => if bool_decide (userId m = u) then f m else m) <$> members s) s.

(** Modelled from the spec: append member. *)
Definition addMember (m : Member) (s : TeamState) : TeamState :=
  setMembers (members s ++ [m]) s.

(** Modelled from the spec: move member to [removedMembers]; drop the
    member's devices. *)
Definition removeMember (u : string) (s : TeamState) : TeamState :=
  match List.find (fun m => bool_decide (userId m = u)) (members s) with
  | None => s
  | Some m =>
      setRemovedMembers (removedMembers s ++ [setMemberDevices [] m])
        (setMembers
           (List.filter (fun x => negb (bool_decide (userId x = u))) (members s))
           s)
  end.

(** Modelled from the spec: the role joins the roles of the team. *)
Definition addRole (r : Role) (s : TeamState) : TeamState :=
  if select.hasRole s (roleName r) then s else setRoles (teamRoles s ++ [r]) s.

(** Modelled from the spec: the role leaves the roles of the team. *)
Definition removeRole (r : string) (s : TeamState) : TeamState :=
  setRoles
    (List.filter (fun x => negb (bool_decide (roleName x = r))) (teamRoles s)) s.

(** Modelled from the spec: append role to member. *)
Definition addMemberRole (u r : string) (s : TeamState) : TeamState :=
  mapMember u
    (fun m => if bool_decide (r ∈ roles m) then m
              else setMemberRoles (roles m ++ [r]) m) s.

(** Modelled from the spec: drop role from member. *)
Definition removeMemberRole (u r : string) (s : TeamState) : TeamState :=
  mapMember u
    (fun m =>
       setMemberRoles
         (List.filter (fun x => negb (bool_decide (x = r))) (roles m)) m) s.

(** Modelled from the spec: the device joins the devices of its member. *)
Definition addDevice (d : Device) (s : TeamState) : TeamState :=
  mapMember (deviceUserId d)
    (fun m =>
       if existsb (fun x => bool_decide (deviceName x = deviceName d)) (devices m)
       then m else setMemberDevices (devices m ++ [d]) m) s.

(** Modelled from the spec: the device moves from its member to
    [removedDevices]. *)
Definition removeDevice (u dn : string) (s : TeamState) : TeamState :=
  let gone :=
    List.filter (fun x => bool_decide (deviceName x = dn))
                (select.memberDevices s u) in
  setRemovedDevices (removedDevices s ++ gone)
    (mapMember u
       (fun m =>
          setMemberDevices
            (List.filter (fun x => negb (bool_decide (deviceName x = dn)))
                         (devices m)) m) s).

(** Modelled from the spec: the server joins the servers. *)
Definition addServer (x : Server) (s : TeamState) : TeamState :=
  if select.hasServer s (host x) then s else setServers (servers s ++ [x]) s.

(** Modelled from the spec: the server moves to [removedServers]. *)
Definition removeServer (h : string) (s : TeamState) : TeamState :=
  setRemovedServers
    (removedServers s ++ List.filter (fun x => bool_decide (host x = h)) (servers s))
    (setServers
       (List.filter (fun x => negb (bool_decide (host x = h))) (servers s)) s).

(** Modelled from the spec: insert invitation record. *)
Definition postInvitation (i : Invitation) (s : TeamState) : TeamState :=
  setInvitations (<[invitationId i := i]> (invitations s)) s.

(** Modelled from the spec: the invitation is marked revoked. *)
Definition revokeInvitation (id : string) (s : TeamState) : TeamState :=
  setInvitations
    (alter (fun i => mkInvitation (invitationId i) (publicKey i) (expiration i)
                       (maxUses i) (uses i) true (invitationUserId i))
           id (invitations s)) s.

(** Modelled from the spec: increment [uses]. *)
Definition useInvitation (id : string) (s : TeamState) : TeamState :=
  setInvitations
    (alter (fun i => mkInvitation (invitationId i) (publicKey i) (expiration i)
                       (maxUses i) (uses i + 1) (revoked i)
                       (invitationUserId i))
           id (invitations s)) s.

(** Modelled from the spec: replace the keyset of the member that the
    keys name. *)
Definition changeMemberKeys (k : Keyset) (s : TeamState) : TeamState :=
  mapMember (scopeName (keyScope k)) (setMemberKeys k) s.

(** Modelled from the spec: replace the keyset of the device whose scope
    the keys have. *)
Definition changeDeviceKeys (k : Keyset) (s : TeamState) : TeamState :=
  setMembers
    ((fun m =>
        setMemberDevices
          ((fun d => if bool_decide (keyScope (deviceKeys d) = keyScope k)
                     then mkDevice (deviceUserId d) (deviceName d) k else d)
             <$> devices m) m) <$> members s) s.

(** Modelled from the spec: replace the keyset of the server that the
    keys name. *)
Definition changeServerKeys (k : Keyset) (s : TeamState) : TeamState :=
  setServers
    ((fun x => if bool_decide (host x = scopeName (keyScope k))
               then mkServer (host x) k else x) <$> servers s) s.

(** Modelled from the spec: the rotation for that member is no longer
    pending. *)
Definition keysRotated (u : string) (s : TeamState) : TeamState :=
  setPendingKeyRotations
    (List.filter (fun x => negb (bool_decide (x = u))) (pendingKeyRotations s)) s.

(** Modelled from the spec: mark [pendingKeyRotations]: the keys that the
    member could read are to be rotated. *)
Definition markPendingKeyRotation (u : string) (s : TeamState) : TeamState :=
  setPendingKeyRotations (pendingKeyRotations s ++ [u]) s.

End transforms.

(** Modelled from the spec: the link was posted on a server: its author is
    the host of a server of the team (a server's links carry its host for
    user id). *)
Definition authoredOnServer (s : TeamState) (link : TeamLink) : bool :=
  select.hasServer s (author link).

(** Modelled from the spec: [reducer(state, link)], a [match] on the action
    with one arm per variant.
    - [ADD_MEMBER]: append member, attach initial lockboxes; a no-op if the
      user id is already present and not removed.
    - [REMOVE_MEMBER]: move the member to [removedMembers]; mark
      [pendingKeyRotations] if the current device is admin; drop the
      member's devices; attach the rotation lockboxes. The reducer is handed
      the state and the link and no other device than the one the link
      carries: the test is on the author of the link.
    - [ADD_MEMBER_ROLE]: append the role to the member, attach the lockbox.
    - [REMOVE_MEMBER_ROLE]: drop the role from the member; a no-op when that
      would leave the team without an admin.
    - [INVITE_*]: insert the invitation; [ADMIT_*]: count the use and put in
      the member or the device with its keys.
    - [ROTATE_KEYS], [CHANGE_*_KEYS]: install the keys and the lockboxes.
    What the dispatch checks is checked again, and a link that violates it
    is a no-op: the last admin keeps the role; a server posts no invitation
    and does not join ([ADD_DEVICE]); a device is admitted by its own
    user. *)
Definition reducer (s : TeamState) (link : TeamLink) : TeamState :=
  let s' :=
    match action link with
    | ROOT name rootMember rootDevice lbs =>
        transforms.addMemberRole (userId rootMember) ADMIN
          (transforms.addRole (mkRole ADMIN)
             (transforms.collectLockboxes lbs
                (transforms.addDevice rootDevice
                   (transforms.addMember rootMember (setTeamName name s)))))
    | ADD_MEMBER m rs lbs =>
        if select.hasMember s (userId m) then s
        else transforms.collectLockboxes lbs
               (transforms.addMember (setMemberRoles rs m) s)
    | REMOVE_MEMBER u lbs =>
        let removed :=
          transforms.removeMember u (transforms.collectLockboxes lbs s) in
        if select.memberIsAdmin s (author link)
        then transforms.markPendingKeyRotation u removed
        else removed
    | ADD_ROLE r lbs =>
        transforms.addRole r (transforms.collectLockboxes lbs s)
    | REMOVE_ROLE r => transforms.removeRole r s
    | ADD_MEMBER_ROLE u r lbs =>
        transforms.addMemberRole u r (transforms.collectLockboxes lbs s)
    | REMOVE_MEMBER_ROLE u r lbs =>
        if bool_decide (r = ADMIN) && (length (select.admins s) <=? 1)%nat
        then s
        else transforms.removeMemberRole u r (transforms.collectLockboxes lbs s)
    | ADD_DEVICE d lbs =>
        if authoredOnServer s link then s
        else transforms.addDevice d (transforms.collectLockboxes lbs s)
    | REMOVE_DEVICE u dn lbs =>
        transforms.removeDevice u dn (transforms.collectLockboxes lbs s)
    | INVITE_MEMBER i =>
        if authoredOnServer s link then s else transforms.postInvitation i s
    | INVITE_DEVICE i =>
        if authoredOnServer s link then s else transforms.postInvitation i s
    | REVOKE_INVITATION id => transforms.revokeInvitation id s
    | ADMIT_MEMBER id uname k lbs =>
        transforms.addMember
          (mkMember (scopeName (keyScope k)) uname k [] [])
          (transforms.collectLockboxes lbs (transforms.useInvitation id s))
    | ADMIT_DEVICE id u dn k lbs =>
        if negb (bool_decide (author link = u)) then s
        else transforms.addDevice (mkDevice u dn k)
               (transforms.collectLockboxes lbs (transforms.useInvitation id s))
    | CHANGE_MEMBER_KEYS k lbs =>
        transforms.changeMemberKeys k (transforms.collectLockboxes lbs s)
    | CHANGE_DEVICE_KEYS k lbs =>
        transforms.changeDeviceKeys k (transforms.collectLockboxes lbs s)
    | CHANGE_SERVER_KEYS k lbs =>
        transforms.changeServerKeys k (transforms.collectLockboxes lbs s)
    | ADD_SERVER x lbs =>
        transforms.addServer x (transforms.collectLockboxes lbs s)
    | REMOVE_SERVER h => transforms.removeServer h s
    | ROTATE_KEYS u lbs =>
        transforms.keysRotated u (transforms.collectLockboxes lbs s)
    end in
  setHead [hash link] s'.

(** The test of [memberIsAdmin] on one member, and what [removeMemberRole]
    does to one member when the role is the admin role. *)
Definition isAdminEntry (u : string) (m : Member) : bool :=
  bool_decide (userId m = u) && bool_decide (ADMIN ∈ roles m).


(** ** Invitations ([invitation/index.js], missing from the sources) *)

Record ProofOfInvitation := mkProof { proofId : string; signature : string }.

Inductive ValidationResult :=
| VALID
| Invalid (error : string).

Definition isValid (v : ValidationResult) : bool :=
  match v with
  | VALID => true
  | Invalid _ => false
  end.

(** What the facade takes from outside the team directory and the spec
    leaves open: the store's reduction of a graph to a state
    ([store.getState()]), the content hash of a link body, device ids,
    the seed normalisation, the making of an invitation from a seed, and the
    signature check of the crypto library. *)
Class Collaborators := {
  getState : TeamGraph -> TeamState;
  hashLink : TeamAction -> string -> list Hash -> Hash;
  getDeviceId : string -> string -> string;
  parseDeviceId : string -> string * string;
  normalize : string -> string;
  createInvitation :
    string -> option Z -> option Z -> option string -> Invitation;
  verify : string -> string -> string -> bool }.

Module invitations.

(** Modelled from the spec: [invitations.fail(message)]: an invalid result
    with the message for error. *)
Definition fail (msg : string) : ValidationResult := Invalid msg.

(** Modelled from the spec: [invitationCanBeUsed(invitation, now)]: VALID iff
    not revoked, [uses < maxUses] and [now < expiration]. *)
Definition invitationCanBeUsed (i : Invitation) (timeOfUse : Z)
  : ValidationResult :=
  if revoked i then fail "This invitation has been revoked."
  else if negb (uses i <? maxUses i)
       then fail "This invitation cannot be used again."
  else if negb (timeOfUse <? expiration i)
       then fail "This invitation has expired."
  else VALID.

(** Modelled from the spec: [validate(proof, invitation)]: verify the
    signature of the proof, which the invitee made over the invitation id,
    against the stored public key. *)
Definition validate `{Collaborators} (proof : ProofOfInvitation)
    (i : Invitation) : ValidationResult :=
  if verify (proofId proof) (signature proof) (publicKey i) then VALID
  else fail "Signature provided is not valid".

End invitations.

(** ** The [Team] class ([team/Team.ts]) *)

(** [LocalUserContext]: the user and the device, and the server when the
    team runs on one. *)
Record LocalContext := mkContext {
  ctxUser : Member;
  ctxDevice : Device;
  ctxServer : option Server }.

(** The context of a user's device. *)
Definition userContext (u : Member) (d : Device) : LocalContext :=
  mkContext u d None.

(** The constructor's context on a server, with [cast.toUser] and
    [cast.toDevice] as the constructor's comment has them: the server's host
    name for everything, and its keys as both user keys and device keys. *)
Definition serverContext (x : Server) : LocalContext :=
  mkContext (mkMember (host x) (host x) (serverKeys x) [] [])
            (mkDevice (host x) (host x) (serverKeys x))
            (Some x).

(** An instance: the context, and the store's graph with the state derived
    from it. *)
Record Team := mkTeam {
  context : LocalContext;
  graph : TeamGraph;
  state : TeamState }.

(** A method that may change the instance and may throw: the outcome, and
    the instance as the call leaves it. *)
Definition M (A : Type) : Type := Team -> result A * Team.

Definition ret {A} (a : A) : M A := fun t => (Ok a, t).
Definition throw {A} (msg : string) : M A := fun t => (Throw msg, t).
Definition bind {A B} (m : M A) (f : A -> M B) : M B :=
  fun t =>
    match m t with
    | (Ok a, t') => f a t'
    | (Throw msg, t') => (Throw msg, t')
    end.
Definition lift {A} (r : Team -> result A) : M A := fun t => (r t, t).

Notation "'do' x <- m ; k" := (bind m (fun x => k))
  (at level 10, x name, m at level 100, k at level 200, only parsing).
Notation "'do_' m ; k" := (bind m (fun _ => k))
  (at level 10, m at level 100, k at level 200, only parsing).

(** [for (const x of xs) body(x)] *)
Fixpoint forEach {A} (body : A -> M unit) (xs : list A) : M unit :=
  match xs with
  | [] => ret tt
  | x :: rest => do_ body x; forEach body rest
  end.

Inductive LookupIdentityResult :=
| VALID_DEVICE | MEMBER_UNKNOWN | MEMBER_REMOVED | DEVICE_UNKNOWN
| DEVICE_REMOVED.

(** What [members] returns: one member, or all of them. *)
Inductive MemberOrMembers :=
| OneMember (m : Member)
| AllMembers (ms : list Member).

Record InviteResult := mkInviteResult { inviteId : string; inviteSeed : string }.

(** [EncryptedEnvelope]: the ciphertext, and the scope and generation of
    the keys it is for. *)
Record EncryptedEnvelope := mkEncrypted {
  envContents : string;
  envRecipient : Keyset }.

(** [SignedEnvelope]: the contents, the signature, and the scope and
    generation of the author's keys. *)
Record SignedEnvelope := mkSigned {
  signedContents : string;
  signedSignature : string;
  signedAuthor : Keyset }.

(** [Challenge] of [connection/types.ts]: a key scope with a nonce and a
    timestamp. *)
Record Challenge := mkChallenge {
  challengeScope : KeyScope;
  nonce : string;
  timestamp : Z }.

(** The crypto library and [connection/identity.js], which the facade calls
    and the sources do not hold. A secret or public key is named by the
    keyset it belongs to. [identityVerify] is handed the [keys] property of
    what the lookup returned, which is undefined when that is a list. *)
Class Crypto := {
  symmetricEncrypt : string -> Keyset -> string;
  symmetricDecrypt : string -> Keyset -> result string;
  signaturesSign : string -> Keyset -> string;
  signaturesVerify : string -> string -> Keyset -> bool;
  identityVerify : Challenge -> string -> option Keyset -> result ValidationResult }.

(** What [roles] returns: one role, or all of them. *)
Inductive RoleOrRoles :=
| OneRole (r : Role)
| AllRoles (rs : list Role).

(** What [servers] returns: one server, or all of them. *)
Inductive ServerOrServers :=
| OneServer (x : Server)
| AllServers (xs : list Server).

Module team.
Section Methods.
Context `{Collaborators}.

Definition isServer (t : Team) : bool :=
  bool_decide (is_Some (ctxServer (context t))).

(** [get userId]: the id of the user of the context, which always has one
    here. *)
Definition getUserId (t : Team) : string := userId (ctxUser (context t)).

(** *** Members *)

Definition has (u : string) (t : Team) : bool := select.hasMember (state t) u.

Definition members (u : option string) (options : option select.Options)
    (t : Team) : result MemberOrMembers :=
  let u := default ALL u in
  let options := default (select.mkOptions true) options in
  if bool_decide (u = ALL)
  then Ok (AllMembers (members (state t)))
  else m ← select.member (state t) u options; Ok (OneMember m).

Definition memberWasRemoved (u : string) (t : Team) : bool :=
  select.memberWasRemoved (state t) u.

(** *** Roles *)

Definition memberIsAdmin (u : string) (t : Team) : bool :=
  select.memberIsAdmin (state t) u.

Definition membersInRole (r : string) (t : Team) : list Member :=
  select.membersInRole (state t) r.

(** *** Devices *)

Definition hasDevice (u d : string) (t : Team) : bool :=
  select.hasDevice (state t) u d.

Definition device (u d : string) (options : option select.Options) (t : Team)
  : result Device :=
  let options := default (select.mkOptions false) options in
  select.device (state t) u d options.

(** Modelled from the spec: [select.deviceWasRemoved(state, deviceId)], which
    is missing from the sources: a removed device has that
    device id. *)
Definition deviceWasRemoved (u d : string) (t : Team) : bool :=
  let deviceId := getDeviceId u d in
  existsb
    (fun x => bool_decide (getDeviceId (deviceUserId x) (deviceName x) = deviceId))
    (removedDevices (state t)).

(** *** Servers *)

Definition serverWasRemoved (h : string) (t : Team) : bool :=
  select.serverWasRemoved (state t) h.

Definition hasServer (h : string) (t : Team) : bool :=
  select.hasServer (state t) h.

(** *** Keys *)

Definition keys (scope : KeyScope) (gen : option nat) (t : Team)
  : result Keyset :=
  select.keys (state t) (deviceKeys (ctxDevice (context t))) scope gen.

Definition roleKeys (r : string) (gen : option nat) (t : Team)
  : result Keyset :=
  keys (mkScope ROLE r) gen t.

Definition teamKeys (gen : option nat) (t : Team) : result Keyset :=
  keys TEAM_SCOPE gen t.

Definition adminKeys (gen : option nat) (t : Team) : result Keyset :=
  roleKeys ADMIN gen t.

(** [rotateKeys(compromised)], [compromised] a scope or a keyset. *)
Definition rotateKeys (compromised : KeyScope + Keyset) (t : Team)
  : list Lockbox :=
  let newKeyset :=
    match compromised with
    | inr k => k
    | inl scope => createKeyset scope
    end in
  let visibleScopes := select.visibleScopes (state t) (keyScope newKeyset) in
  let otherNewKeysets := createKeyset <$> visibleScopes in
  let newKeysets := newKeyset :: otherNewKeysets in
  flat_map
    (fun newKeyset =>
       let oldLockboxes :=
         select.lockboxesInScope (state t) (keyScope newKeyset) in
       (fun oldLockbox =>
          let updatedKeyset :=
            List.find
              (fun k => scopesMatch (keyScope k) (keyScope (recipient oldLockbox)))
              newKeysets in
          lockbox.rotate oldLockbox newKeyset updatedKeyset) <$> oldLockboxes)
    newKeysets.

(** [array.map(this.roleKeys)]: [map] hands the callback the element and its
    index, and the second parameter of [roleKeys] is the generation. *)
Definition createMemberLockboxes (m : Member) (t : Team)
  : result (list Lockbox) :=
  rks ← mapM (fun '(i, r) => roleKeys r (Some i) t)
             (imap (fun i r => (i, r)) (roles m));
  tk ← teamKeys None t;
  Ok ((fun k => lockbox.create k (memberKeys m)) <$> (rks ++ [tk])).

(** *** Dispatch *)

(** [chain.links[h] = link] *)
Definition setLink (h : Hash) (l : TeamLink) (ls : list (Hash * TeamLink))
  : list (Hash * TeamLink) :=
  if existsb (fun e => bool_decide (fst e = h)) ls
  then (fun e => if bool_decide (fst e = h) then (h, l) else e) <$> ls
  else ls ++ [(h, l)].

(** Modelled from the spec: [store.dispatch(action, teamKeys)] appends: the
    new link has the head for predecessors and becomes the head; then
    [this.state = this.store.getState()]. *)
Definition storeDispatch (a : TeamAction) (t : Team) : Team :=
  let g := graph t in
  let u := getUserId t in
  let h := hashLink a u (head g) in
  let g' := mkGraph (root g) [h] (setLink h (mkLink h a u (head g)) (links g)) in
  mkTeam (context t) g' (getState g').

(** [dispatch(action, teamKeys = this.teamKeys())] and the listener that the
    constructor puts on [updated], [checkForPendingKeyRotations]. The
    listener dispatches in its turn; [fuel] bounds the depth of that
    nesting, and running out of it is the overflow of the call stack. *)
Fixpoint dispatch (fuel : nat) (a : TeamAction) (tk : option Keyset) : M unit :=
  match fuel with
  | O => throw "RangeError: Maximum call stack size exceeded"
  | S n =>
      do_ (match tk with
           | Some k => ret k
           | None => lift (teamKeys None)
           end);
      do_ (fun t => (Ok tt, storeDispatch a t));
      (* this.emit('updated', ..) *)
      do admin <- lift (fun t => Ok (memberIsAdmin (getUserId t) t));
      if admin : bool then
        do pending <- lift (fun t => Ok (pendingKeyRotations (state t)));
        forEach
          (fun u =>
             do lockboxes <-
               lift (fun t => Ok (rotateKeys (inl (mkScope USER (getUserId t))) t));
             dispatch n (ROTATE_KEYS u lockboxes) None)
          pending
      else ret tt
  end.

(** Modelled from the spec: [store.merge(theirGraph)]: the merge of the two
    graphs is the graph of the store; then
    [this.state = this.store.getState()]. *)
Definition storeMerge (theirGraph : TeamGraph) (t : Team) : Team :=
  let g' := store.merge (graph t) theirGraph in
  mkTeam (context t) g' (getState g').

(** [checkForPendingKeyRotations], the listener on [updated], as a call of
    its own. *)
Definition checkForPendingKeyRotations (fuel : nat) : M unit :=
  do admin <- lift (fun t => Ok (memberIsAdmin (getUserId t) t));
  if admin : bool then
    do pending <- lift (fun t => Ok (pendingKeyRotations (state t)));
    forEach
      (fun u =>
         do lockboxes <-
           lift (fun t => Ok (rotateKeys (inl (mkScope USER (getUserId t))) t));
         dispatch fuel (ROTATE_KEYS u lockboxes) None)
      pending
  else ret tt.

(** [merge(theirGraph)]; the instance it returns is the one it leaves. *)
Definition merge (fuel : nat) (theirGraph : TeamGraph) : M unit :=
  do_ (fun t => (Ok tt, storeMerge theirGraph t));
  (* this.emit('updated', ..) *)
  checkForPendingKeyRotations fuel.

(** [new Team({ teamName, context, teamKeys })] for a new team, with
    [createTeam]'s team keys. *)
Definition createTeam (name : string) (ctx : LocalContext) : result Team :=
  _ ← assert (negb (bool_decide (is_Some (ctxServer ctx))))
        "Cannot create a team on a server";
  let u := ctxUser ctx in
  let teamLockbox := lockbox.create (createKeyset TEAM_SCOPE) (memberKeys u) in
  let adminLockbox := lockbox.create (createKeyset ADMIN_SCOPE) (memberKeys u) in
  let deviceLockbox :=
    lockbox.create (memberKeys u) (deviceKeys (ctxDevice ctx)) in
  let rootPayload :=
    ROOT name u (ctxDevice ctx) [teamLockbox; adminLockbox; deviceLockbox] in
  let h := hashLink rootPayload (userId u) [] in
  let g := mkGraph h [h] [(h, mkLink h rootPayload (userId u) [])] in
  Ok (mkTeam ctx g (getState g)).

(** [new Team({ source, context, teamKeyring })] for an existing graph. *)
Definition loadTeam (source : TeamGraph) (ctx : LocalContext) : Team :=
  mkTeam ctx source (getState source).

(** *** Changing the membership *)

Definition addForTesting (fuel : nat) (u : Member) (rs : list string)
    (d : option Device) : M unit :=
  let m := setMemberRoles rs u in
  do lockboxes <- lift (createMemberLockboxes m);
  do_ dispatch fuel (ADD_MEMBER m rs lockboxes) None;
  match d with
  | Some d =>
      dispatch fuel
        (ADD_DEVICE d [lockbox.create (memberKeys u) (deviceKeys d)]) None
  | None => ret tt
  end.

Definition remove (fuel : nat) (u : string) : M unit :=
  do lockboxes <- lift (fun t => Ok (rotateKeys (inl (mkScope USER u)) t));
  dispatch fuel (REMOVE_MEMBER u lockboxes) None.

Definition removeRole (fuel : nat) (r : string) : M unit :=
  do_ lift (fun _ => assert (negb (bool_decide (r = ADMIN)))
                       "Cannot remove admin role");
  dispatch fuel (REMOVE_ROLE r) None.

Definition removeMemberRole (fuel : nat) (u r : string) : M unit :=
  do_ (if bool_decide (r = ADMIN) then
         do adminCount <- lift (fun t => Ok (length (membersInRole ADMIN t)));
         lift (fun _ => assert (1 <? adminCount)%nat "Can't remove the last admin")
       else ret tt);
  do lockboxes <- lift (fun t => Ok (rotateKeys (inl (mkScope ROLE r)) t));
  dispatch fuel (REMOVE_MEMBER_ROLE u r lockboxes) None.

Definition removeDevice (fuel : nat) (u d : string) : M unit :=
  do present <- lift (fun t => Ok (hasDevice u d t));
  if negb present then ret tt else
  let deviceId := getDeviceId u d in
  do lockboxes <- lift (fun t => Ok (rotateKeys (inl (mkScope DEVICE deviceId)) t));
  dispatch fuel (REMOVE_DEVICE u d lockboxes) None.

(** [cast.toMember(server)]: the host name for the ids, no roles. *)
Definition addServer (fuel : nat) (x : Server) : M unit :=
  do lockboxes <-
    lift (createMemberLockboxes (mkMember (host x) (host x) (serverKeys x) [] []));
  dispatch fuel (ADD_SERVER x lockboxes) None.

(** *** Invitations *)

(** [seed] is the seed given or the random one made for the call. *)
Definition inviteMember (fuel : nat) (seed : string)
    (expiration maxUses : option Z) : M InviteResult :=
  let seed := normalize seed in
  let invitation := createInvitation seed expiration maxUses None in
  let id := invitationId invitation in
  do_ dispatch fuel (INVITE_MEMBER invitation) None;
  ret (mkInviteResult id seed).

(** [now] is what [Date.now()] gives. *)
Definition inviteDevice (fuel : nat) (now : Z) (seed : string)
    (expiration : option Z) : M InviteResult :=
  let expiration := default (now + 30 * 60 * 1000) expiration in
  do_ lift (fun t => assert (negb (isServer t)) "Server can't invite a device");
  let seed := normalize seed in
  do u <- lift (fun t => Ok (getUserId t));
  let maxUses := 1 in
  let invitation := createInvitation seed (Some expiration) (Some maxUses) (Some u) in
  let id := invitationId invitation in
  do_ dispatch fuel (INVITE_DEVICE invitation) None;
  ret (mkInviteResult id seed).

Definition hasInvitation (id : string) (t : Team) : bool :=
  select.hasInvitation (state t) id.

Definition getInvitation (id : string) (t : Team) : result Invitation :=
  select.getInvitation (state t) id.

Definition validateInvitation (now : Z) (proof : ProofOfInvitation) (t : Team)
  : result ValidationResult :=
  let id := proofId proof in
  if negb (hasInvitation id t)
  then Ok (invitations.fail "This invitation code doesn't match.")
  else
    invitation ← getInvitation id t;
    let canBeUsedResult := invitations.invitationCanBeUsed invitation now in
    if negb (isValid canBeUsedResult) then Ok canBeUsedResult
    else Ok (invitations.validate proof invitation).

(** Modelled from the spec: [getLatestGeneration(keyring)] of [crdx], which
    is missing from the sources: the keyset of the keyring with
    the highest generation, undefined for an empty keyring. *)
Definition getLatestGeneration (keyring : list Keyset) : option Keyset :=
  List.find
    (fun k => bool_decide (generation k = select.maxGeneration keyring)) keyring.

Definition join (fuel : nat) (teamKeyring : list Keyset) : M unit :=
  do_ lift (fun t => assert (negb (isServer t)) "Can't join as member on server");
  let teamKeys := getLatestGeneration teamKeyring in
  do ctx <- lift (fun t => Ok (context t));
  let deviceLockbox :=
    lockbox.create (memberKeys (ctxUser ctx)) (deviceKeys (ctxDevice ctx)) in
  dispatch fuel (ADD_DEVICE (ctxDevice ctx) [deviceLockbox]) teamKeys.

(** *** Identity *)

Definition lookupIdentity (identityClaim : KeyScope) (t : Team)
  : result LookupIdentityResult :=
  _ ← assert (bool_decide (scopeType identityClaim = DEVICE)) "Assertion failed";
  let deviceId := scopeName identityClaim in
  let '(u, d) := parseDeviceId deviceId in
  if memberWasRemoved u t || serverWasRemoved u t then Ok MEMBER_REMOVED
  else if negb (has u t) && negb (hasServer u t) then Ok MEMBER_UNKNOWN
  else if deviceWasRemoved u d t then Ok DEVICE_REMOVED
  else if negb (hasDevice u d t) && negb (hasServer u t) then Ok DEVICE_UNKNOWN
  else Ok VALID_DEVICE.

(** *** The other methods of the class *)

Context `{Crypto}.

(** [get id]: the hash of the graph's root. *)
Definition id (t : Team) : Hash := root (graph t).

(** [get teamName] *)
Definition getTeamName (t : Team) : string := teamName (state t).

Definition add (fuel : nat) (u : Member) (rs : list string) : M unit :=
  let m := setMemberRoles rs u in
  do lockboxes <- lift (createMemberLockboxes m);
  dispatch fuel (ADD_MEMBER m rs lockboxes) None.

Definition roles (r : option string) (t : Team) : result RoleOrRoles :=
  let r := default ALL r in
  if bool_decide (r = ALL)
  then Ok (AllRoles (teamRoles (state t)))
  else x ← select.role (state t) r; Ok (OneRole x).

Definition memberHasRole (u r : string) (t : Team) : bool :=
  select.memberHasRole (state t) u r.

Definition hasRole (r : string) (t : Team) : bool := select.hasRole (state t) r.

Definition admins (t : Team) : list Member := select.admins (state t).

(** [addRole(role)], [role] a role or the name of one. *)
Definition addRole (fuel : nat) (role : Role + string) : M unit :=
  let role :=
    match role with
    | inl r => r
    | inr name => mkRole name
    end in
  let roleKeys := createKeyset (mkScope ROLE (roleName role)) in
  do adminKeys <- lift (adminKeys None);
  let lockboxForAdmin := lockbox.create roleKeys adminKeys in
  dispatch fuel (ADD_ROLE role [lockboxForAdmin]) None.

(** [addMemberRole]. [this.members(userId)] is the list of members when the
    id is [ALL], and the [keys] of a list are undefined: sealing a lockbox
    for no keys is a [TypeError]. *)
Definition addMemberRole (fuel : nat) (u r : string) : M unit :=
  do member <- lift (members (Some u) None);
  do keys <- lift (roleKeys r None);
  match member with
  | OneMember m =>
      let roleLockbox := lockbox.create keys (memberKeys m) in
      dispatch fuel (ADD_MEMBER_ROLE u r [roleLockbox]) None
  | AllMembers _ =>
      throw "TypeError: Cannot read properties of undefined"
  end.

Definition revokeInvitation (fuel : nat) (id : string) : M unit :=
  dispatch fuel (REVOKE_INVITATION id) None.

(** [throw validation.error]: the error carries the message of the failed
    validation. *)
Definition validationError (v : ValidationResult) : string :=
  match v with
  | VALID => "undefined"
  | Invalid e => e
  end.

Definition admitMember (fuel : nat) (now : Z) (proof : ProofOfInvitation)
    (mkeys : Keyset) (uname : string) : M unit :=
  do validation <- lift (validateInvitation now proof);
  if negb (isValid validation) then throw (validationError validation) else
  let id := proofId proof in
  do teamKeys <- lift (teamKeys None);
  let teamKeysLockbox := lockbox.create teamKeys mkeys in
  dispatch fuel (ADMIT_MEMBER id uname mkeys [teamKeysLockbox]) None.

Definition admitDevice (fuel : nat) (now : Z) (proof : ProofOfInvitation)
    (d : Device) : M unit :=
  do validation <- lift (validateInvitation now proof);
  if negb (isValid validation) then throw (validationError validation) else
  let id := proofId proof in
  do_ lift (fun t => assert (bool_decide (getUserId t = deviceUserId d))
                       "Can't admit someone else's device");
  do ctx <- lift (fun t => Ok (context t));
  let deviceLockbox := lockbox.create (memberKeys (ctxUser ctx)) (deviceKeys d) in
  dispatch fuel
    (ADMIT_DEVICE id (deviceUserId d) (deviceName d) (deviceKeys d)
       [deviceLockbox]) None.

Definition removeServer (fuel : nat) (h : string) : M unit :=
  dispatch fuel (REMOVE_SERVER h) None.

Definition servers (h : option string) (options : option select.Options)
    (t : Team) : result ServerOrServers :=
  let h := default ALL h in
  let options := default (select.mkOptions true) options in
  if bool_decide (h = ALL)
  then Ok (AllServers (servers (state t)))
  else x ← select.server (state t) h options; Ok (OneServer x).

Definition verifyIdentityProof (challenge : Challenge) (proof : string)
    (t : Team) : result bool :=
  _ ← assert (bool_decide (scopeType (challengeScope challenge) = DEVICE))
        "Assertion failed";
  let deviceId := scopeName (challengeScope challenge) in
  let '(u, d) := parseDeviceId deviceId in
  keys ←
    (if hasServer u t
     then x ← servers (Some u) None t;
          Ok (match x with
              | OneServer x => Some (serverKeys x)
              | AllServers _ => None
              end)
     else x ← device u d (Some (select.mkOptions true)) t;
          Ok (Some (deviceKeys x)));
  validation ← identityVerify challenge proof keys;
  Ok (isValid validation).

(** *** Crypto *)

(** [roleName ? { type: ROLE, name: roleName } : TEAM_SCOPE]: no role name
    and the empty role name are the team scope. *)
Definition encryptionScope (r : option string) : KeyScope :=
  match r with
  | Some name => if bool_decide (name = "") then TEAM_SCOPE else mkScope ROLE name
  | None => TEAM_SCOPE
  end.

Definition encrypt (payload : string) (r : option string) (t : Team)
  : result EncryptedEnvelope :=
  let scope := encryptionScope r in
  k ← keys scope None t;
  Ok (mkEncrypted (symmetricEncrypt payload k)
                  (mkKeyset scope (generation k))).

Definition decrypt (message : EncryptedEnvelope) (t : Team) : result string :=
  k ← keys (keyScope (envRecipient message))
         (Some (generation (envRecipient message))) t;
  symmetricDecrypt (envContents message) k.

(** [sign(contents)]. [assert(this.context.user)] holds: the context
    always has a user here. *)
Definition sign (contents : string) (t : Team) : SignedEnvelope :=
  let k := memberKeys (ctxUser (context t)) in
  mkSigned contents (signaturesSign contents k)
           (mkKeyset (keyScope k) (generation k)).

(** [verify(message)]: against the keys of the member that the author's
    name is the id of; the [keys] of the list that [members(ALL)] returns
    are undefined, and reading their [signature] is a [TypeError]. *)
Definition verify (message : SignedEnvelope) (t : Team) : result bool :=
  author ← members (Some (scopeName (keyScope (signedAuthor message)))) None t;
  match author with
  | OneMember m =>
      Ok (signaturesVerify (signedContents message) (signedSignature message)
                           (memberKeys m))
  | AllMembers _ =>
      Throw "TypeError: Cannot read properties of undefined (reading 'signature')"
  end.


End Methods.
End team.

(** ** What a call leaves of the instance *)

Section Outcome.
Context `{Collaborators}.

(** The graph of [t'] has a head of one link, which the user of [t] wrote,
    and the state of [t'] is the one the store derives from its graph. *)
Definition headedBy (t t' : Team) : Prop :=
  exists l,
    head (graph t') = [hash l] /\
    getLink (graph t') (hash l) = Some l /\
    author l = team.getUserId t /\
    state t' = getState (graph t').

(** [t'] is [t] after the user of [t] posted links, or none: the context and
    the root are the same, no hash of the graph is lost, and when anything
    changed the head is a link of the user's. *)
Definition posted (t t' : Team) : Prop :=
  context t' = context t /\
  root (graph t') = root (graph t) /\
  (forall h, is_Some (getLink (graph t) h) -> is_Some (getLink (graph t') h)) /\
  (length (links (graph t)) <= length (links (graph t')))%nat /\
  (t' = t \/ headedBy t t').

(** The call threw and left the instance as it was. *)
Definition failsUnchanged {A} (m : M A) (t : Team) : Prop :=
  exists msg, m t = (Throw msg, t).

End Outcome.

(** ** A store for one device, and the teams of the scenarios *)

Module scenario.

(** [userId::deviceName] split at the first [::]. *)
Fixpoint splitDeviceId (s : string) : string * string :=
  match s with
  | String ":"%char (String ":"%char rest) => ("", rest)
  | String c rest => let '(u, d) := splitDeviceId rest in (String c u, d)
  | EmptyString => ("", "")
  end.

(** Modelled from the spec: normalize = lowercase + strip whitespace and
    punctuation: the letters and digits of the seed, the letters in lower
    case. *)
Definition normalizeChar (c : ascii) : option ascii :=
  let n := nat_of_ascii c in
  if ((48 <=? n) && (n <=? 57))%nat then Some c
  else if ((97 <=? n) && (n <=? 122))%nat then Some c
  else if ((65 <=? n) && (n <=? 90))%nat then Some (ascii_of_nat (n + 32))
  else None.

Fixpoint normalizeSeed (seed : string) : string :=
  match seed with
  | EmptyString => EmptyString
  | String c rest =>
      match normalizeChar c with
      | Some c' => String c' (normalizeSeed rest)
      | None => normalizeSeed rest
      end
  end.

(** What an invitation records for an expiration or a number of uses that
    its maker did not give ([Team.ts]: the invitation does not expire, the
    invitation can be used any number of times): a bound that no time of
    [Date.now()] and no count of uses reaches, [2^53], where the integers
    of a JS number end. *)
Definition unbounded : Z := 9007199254740992.

(** Modelled from the spec: [reduce(initialState, topoSort(graph))] on a
    graph that one instance built by appending, where the topological order
    is the order of insertion and the resolver has nothing concurrent to
    filter. The hash of a link stands for the content hash: along one chain
    it is new at every link. The invitation and the signature check stand for
    the crypto library: the public key is derived from the seed and a
    signature is valid when it is the key followed by what was signed. *)
#[global] Instance localStore : Collaborators := {|
  getState g := foldl reducer initialState (snd <$> links g);
  hashLink a u prev := "#" +:+ String.concat "" prev;
  getDeviceId u d := u +:+ "::" +:+ d;
  parseDeviceId := splitDeviceId;
  normalize := normalizeSeed;
  createInvitation seed exp uses u :=
    mkInvitation ("id:" +:+ seed) ("pk:" +:+ seed)
                 (default unbounded exp) (default unbounded uses) 0 false u;
  verify payload sig key := bool_decide (sig = key +:+ payload) |}.

Definition person (n : string) : Member :=
  mkMember n n (createKeyset (mkScope USER n)) [] [].

Definition laptop (n : string) : Device :=
  mkDevice n "laptop" (createKeyset (mkScope DEVICE (getDeviceId n "laptop"))).

(** What a call leaves of the instance; nothing when it threw. *)
Definition after {A} (m : M A) (t : result Team) : result Team :=
  t ← t;
  match m t with
  | (Ok _, t') => Ok t'
  | (Throw msg, _) => Throw msg
  end.

(** [setup('alice', { user: 'bob', admin: true })]: Alice founds the team on
    her laptop and adds Bob, with the admin role, and his laptop. *)
Definition aliceAndBobAdmin (fuel : nat) : result Team :=
  after (team.addForTesting fuel (person "bob") [ADMIN] (Some (laptop "bob")))
        (team.createTeam "Spies R Us" (userContext (person "alice") (laptop "alice"))).

(** Then [alice.team.remove('bob')]. *)
Definition bobRemoved (fuel : nat) : result Team :=
  after (team.remove fuel "bob") (aliceAndBobAdmin fuel).

(** A result's team, for a scenario that is known to get there. *)
Definition noTeam : Team :=
  mkTeam (userContext (person "") (laptop "")) (mkGraph "" [] []) initialState.

Definition teamOf (r : result Team) : Team :=
  match r with
  | Ok t => t
  | Throw _ => noTeam
  end.

(** Alice alone on her team. *)
Definition aliceAlone : result Team :=
  team.createTeam "Spies R Us" (userContext (person "alice") (laptop "alice")).

(** Alice removes Bob's laptop, and then Bob. *)
Definition bobAndLaptopRemoved (fuel : nat) : result Team :=
  after (team.remove fuel "bob")
    (after (team.removeDevice fuel "bob" "laptop") (aliceAndBobAdmin fuel)).


(** Alice adds a member whose user id is [ALL], and removes them. *)
Definition allRemoved (fuel : nat) : result Team :=
  after (team.remove fuel ALL)
    (after (team.addForTesting fuel (person ALL) [] None) aliceAlone).

(** A sync server that Alice added to her team, and the instance of the team
    that runs on it, made from Alice's graph. *)
Definition syncServer : Server :=
  mkServer "localhost" (createKeyset (mkScope SERVER "localhost")).

Definition teamOnServer (fuel : nat) : result Team :=
  t ← after (team.addServer fuel syncServer) aliceAlone;
  Ok (team.loadTeam (graph t) (serverContext syncServer)).

End scenario.

(** ** A crypto library to run the envelopes on *)

Module envelopes.
Import scenario.

(** [s] without the prefix [p], when it starts with it. *)
Fixpoint stripPrefix (p s : string) : option string :=
  match p, s with
  | EmptyString, _ => Some s
  | String a p', String b s' =>
      if bool_decide (a = b) then stripPrefix p' s' else None
  | String _ _, EmptyString => None
  end.

(** What marks a text as sealed or signed with the keys of a scope. *)
Definition mark (k : Keyset) : string := scopeName (keyScope k) +:+ "|".

(** Modelled from the spec: the crypto library as far as the envelopes need
    it. A ciphertext is the payload behind the mark of the key, and opens
    with that key only; a signature is the mark of the key and the
    contents; an identity proof is the mark of the device's keys and the
    nonce of the challenge. *)
#[global] Instance localCrypto : Crypto := {|
  symmetricEncrypt payload k := mark k +:+ payload;
  symmetricDecrypt cipher k :=
    assertSome (stripPrefix (mark k) cipher) "Could not decrypt message";
  signaturesSign contents k := mark k +:+ contents;
  signaturesVerify contents sig k := bool_decide (sig = mark k +:+ contents);
  identityVerify challenge proof keys :=
    match keys with
    | Some k =>
        Ok (if bool_decide (proof = mark k +:+ nonce challenge)
            then VALID
            else invitations.fail "Signature provided is not valid")
    | None => Throw "TypeError: Cannot read properties of undefined"
    end |}.

(** Eve's laptop with a copy of Alice's graph: no lockbox of the graph is
    sealed for its keys. *)
Definition eveOnAlicesGraph : Team :=
  team.loadTeam (graph (teamOf aliceAlone))
                (userContext (person "eve") (laptop "eve")).

(** Bob's laptop with the graph of the team that Alice added him to, as an
    admin or as a plain member. *)
Definition bobOnAlicesGraph (admin : bool) : Team :=
  team.loadTeam
    (graph (teamOf
       (after (team.addForTesting 1 (person "bob")
                 (if admin then [ADMIN] else []) (Some (laptop "bob")))
              aliceAlone)))
    (userContext (person "bob") (laptop "bob")).

(** Alice's team after she invited a member with the seed [abc], to be
    used once before the time 2000. *)
Definition aliceInvited : Team :=
  (team.inviteMember 1 "abc" (Some 2000) (Some 1) (teamOf aliceAlone)).2.

End envelopes.

(** ** Parent maps of a graph ([crdx], missing from the sources) *)

Module crdx.

Section Graphs.
(** The action type of the graph: what a link body holds besides [prev]. *)
Context {A : Type}.

Record Link := mkLink {
  body : A;
  prev : list Hash }.

(** Modelled from the spec: Graph = (root, head, links, encryptedBody,
    childMap), as the parent maps read it: a parent map is a map from the
    hash to the predecessors and is compared as one, so that the order in
    which the graph holds its links is not observed here (where it is, by
    [bySeniority], the graph is a [TeamGraph]). The links and the encrypted
    bodies are maps from the hash; the head is the set of hashes that the
    spec's glossary has it be; the child map is the inverse of [prev] and is
    not stored. *)
Record Graph := mkGraph {
  root : Hash;
  head : gset Hash;
  links : gmap Hash Link;
  encryptedBody : gmap Hash string }.

(** *** Parent maps *)

(** Modelled from the spec: the immediate predecessors of a link. *)
Definition parents (g : Graph) (h : Hash) : list Hash :=
  match links g !! h with
  | Some l => prev l
  | None => []
  end.

(** Modelled from the spec: one hop: from [a] to a link among its immediate
    predecessors. *)
Definition hop (g : Graph) (a b : Hash) : Prop :=
  b ∈ parents g a /\ b ∈ dom (links g).

(** Modelled from the spec: the links one hop from a link of [X]. *)
Definition step (g : Graph) (X : gset Hash) : gset Hash :=
  filter (fun h => h ∈ dom (links g))
         (set_bind (fun h => (list_to_set (parents g h) : gset Hash)) X).

(** Modelled from the spec: the links of the first [n] levels from [start]:
    [start] is the first level, the links one hop from it the second, and so
    on. *)
Fixpoint within (n : nat) (g : Graph) (start : gset Hash) : gset Hash :=
  match n with
  | O => ∅
  | S n' => (start ∩ dom (links g)) ∪ step g (within n' g start)
  end.

(** Modelled from the spec: every level there is: a walk that does not repeat
    a link sees no more levels than there are links. *)
Definition reachable (g : Graph) (start : gset Hash) : gset Hash :=
  within (size (links g)) g start.

Definition LinkMap := gmap Hash (list Hash).

(** Modelled from the spec: the hashes that a link map names as predecessors
    and does not hold. *)
Definition tails (m : gmap Hash (list Hash)) : gset Hash :=
  filter (fun h => h ∉ dom m)
         (⋃ ((fun e => (list_to_set e.2 : gset Hash)) <$> map_to_list m)).

(** Modelled from the spec: getParentMap(graph, {depth?, end?, prev?})
    returns a map from each selected link's hash to its immediate
    predecessors. With [depth], only links within that many levels; with
    [end], only links reachable from head that are not at or beyond the
    [end] set; with [prev], the walk goes on from where [prev] stopped and
    what [prev] holds is left out. How the levels are counted and where the
    walk starts when [prev] is given follow [getParentMap.test.ts]. *)
Definition getParentMap (g : Graph) (depth : option nat)
    (end_ : option (list Hash)) (prev_ : option (gmap Hash (list Hash)))
  : gmap Hash (list Hash) :=
  let start :=
    match prev_ with
    | None => head g
    | Some m => tails m
    end in
  let selected := within (default (size (links g)) depth) g start in
  let atOrBeyond :=
    match end_ with
    | None => ∅
    | Some e => reachable g (list_to_set e)
    end in
  let known : gset Hash :=
    match prev_ with
    | None => ∅
    | Some m => dom m
    end in
  filter (fun e : Hash * list Hash =>
            (fst e ∈ selected) /\ (fst e ∉ atOrBeyond) /\ (fst e ∉ known))
         (prev <$> links g).

(** Where the walk of [getParentMap] starts: at the head, or with [prev] at
    the hashes that [prev] names as predecessors and does not hold. *)
Definition startsAt (g : Graph) (prev_ : option (gmap Hash (list Hash))) (s : Hash) : Prop :=
  match prev_ with
  | None => s ∈ head g
  | Some m => (s ∉ dom m) /\ exists x ps, m !! x = Some ps /\ s ∈ ps
  end.

(** How far it goes: fewer than [depth] hops, or any number of them. *)
Definition walks (g : Graph) (depth : option nat) (s h : Hash) : Prop :=
  match depth with
  | Some d => exists k, (k < d)%nat /\ nsteps (hop g) k s h
  | None => rtc (hop g) s h
  end.

End Graphs.
Arguments Link : clear implicits.
Arguments Graph : clear implicits.

(** The graph of [getParentMap.test.ts]; the payload of a link is its hash
    here, and the root link is [R]. *)
Definition testGraph : Graph string :=
  let l (h : string) (ps : list Hash) := (h, mkLink h ps) in
  mkGraph "R" {[ "n" ]}
    (list_to_map
       [ l "R" []; l "a" ["R"]; l "b" ["a"]; l "c" ["b"]; l "d" ["c"];
         l "e" ["d"]; l "g" ["e"]; l "f" ["d"]; l "h" ["b"]; l "i" ["h"];
         l "j" ["b"]; l "k" ["j"]; l "l" ["k"]; l "o" ["f"; "g"; "i"];
         l "n" ["l"; "o"] ])
    ∅.

(** What the test expects of depth 2. *)
Definition depth2 : gmap Hash (list Hash) :=
  list_to_map [("l", ["k"]); ("n", ["l"; "o"]); ("o", ["f"; "g"; "i"])].

End crdx.

(** ** The membership resolver ([team/membershipResolver.ts], missing from
       the sources) *)

Module membershipResolver.

Section Resolver.

(** The comparator of the chain as a test: [senior a b] when
    [bySeniority(chain)(a, b)] is negative. *)
Variable senior : string -> string -> bool.

(** Modelled from the spec: the member whom the link removes, or takes the
    admin role from. *)
Definition ousts (l : TeamLink) : option string :=
  match action l with
  | REMOVE_MEMBER u _ => Some u
  | REMOVE_MEMBER_ROLE u r _ => if bool_decide (r = ADMIN) then Some u else None
  | _ => None
  end.

(** What a member may do without the admin role, by the comments of
    [Team.ts]: admit an invited member or device, invite or add a device of
    their own, remove a device of their own, change keys of their own. *)
Definition requiresAdmin (l : TeamLink) : bool :=
  match action l with
  | ADD_DEVICE d _ => negb (bool_decide (deviceUserId d = author l))
  | REMOVE_DEVICE u _ _ => negb (bool_decide (u = author l))
  | INVITE_DEVICE _ => false
  | ADMIT_MEMBER _ _ _ _ => false
  | ADMIT_DEVICE _ _ _ _ _ => false
  | CHANGE_MEMBER_KEYS k _ => negb (bool_decide (scopeName (keyScope k) = author l))
  | CHANGE_DEVICE_KEYS _ _ => false
  | CHANGE_SERVER_KEYS _ _ => false
  | _ => true
  end.

(** The links that can change who holds the admin role: the root, a
    removal, an addition with the role, a promotion to it and a demotion
    from it. *)
Definition changesAdmins (l : TeamLink) : bool :=
  match action l with
  | ROOT _ _ _ _ => true
  | ADD_MEMBER _ rs _ => bool_decide (ADMIN ∈ rs)
  | REMOVE_MEMBER _ _ => true
  | ADD_MEMBER_ROLE _ r _ => bool_decide (r = ADMIN)
  | REMOVE_MEMBER_ROLE _ r _ => bool_decide (r = ADMIN)
  | _ => false
  end.

(** Modelled from the spec: the links of [mine] by which an admin removes or
    demotes somebody who acts in [theirs]. An admin is one of the state [s]
    at which the two branches split: the role that a link of the branch
    itself gives stands or falls with that link, and decides nothing. *)
Definition attacks (s : TeamState) (mine theirs : list TeamLink)
  : list TeamLink :=
  List.filter
    (fun l =>
       select.memberIsAdmin s (author l) &&
       match ousts l with
       | Some u => bool_decide (u ∈ author <$> theirs)
       | None => false
       end)
    mine.

(** Modelled from the spec: [l] gives way to [l'], which removes or demotes
    its author, unless the two admins remove or demote each other and the
    author of [l'] is not the senior: rule 1, mutual remove/demote, the more
    senior admin's action wins. *)
Definition yieldsTo (l l' : TeamLink) : bool :=
  bool_decide (ousts l' = Some (author l)) &&
  (negb (bool_decide (ousts l = Some (author l'))) ||
   senior (author l') (author l)).

(** Modelled from the spec: a removal or demotion stands when its author
    did not lose admin or membership by one of the other branch that stands
    itself: rule 2, recursively. [mine] and [theirs] are the removals and
    demotions of the two branches, and [n] bounds the length of the chains
    of them that are followed. *)
Fixpoint stands (n : nat) (mine theirs : list TeamLink) (l : TeamLink)
  : bool :=
  match n with
  | O => true
  | S n' =>
      negb (existsb (fun l' => yieldsTo l l' && stands n' theirs mine l')
                    theirs)
  end.

(** Modelled from the spec: the removals and demotions of [mine] that stand
    against [theirs]; no chain is longer than there are removals and
    demotions. *)
Definition prevailing (s : TeamState) (mine theirs : list TeamLink)
  : list TeamLink :=
  let ours := attacks s mine theirs in
  let others := attacks s theirs mine in
  List.filter (stands (S (length ours + length others)) ours others) ours.

(** Modelled from the spec: who lost membership, and who lost admin, by
    these links. *)
Definition removedBy (ls : list TeamLink) : list string :=
  omap (fun l =>
          match action l with
          | REMOVE_MEMBER u _ => Some u
          | _ => None
          end) ls.

Definition demotedBy (ls : list TeamLink) : list string :=
  omap (fun l =>
          match action l with
          | REMOVE_MEMBER_ROLE u r _ =>
              if bool_decide (r = ADMIN) then Some u else None
          | _ => None
          end) ls.

(** Modelled from the spec: whom a link that is filtered out would have made a
    member. *)
Definition admits (s : TeamState) (l : TeamLink) : list string :=
  match action l with
  | ADD_MEMBER m _ _ =>
      if select.hasMember s (userId m) then [] else [userId m]
  | ADMIT_MEMBER _ _ k _ =>
      if select.hasMember s (scopeName (keyScope k)) then []
      else [scopeName (keyScope k)]
  | _ => []
  end.

(** Modelled from the spec: whom a link that is filtered out would have made
    an admin. *)
Definition promotes (s : TeamState) (l : TeamLink) : list string :=
  match action l with
  | ADD_MEMBER m rs _ =>
      if negb (select.hasMember s (userId m)) && bool_decide (ADMIN ∈ rs)
      then [userId m] else []
  | ADD_MEMBER_ROLE u r _ =>
      if bool_decide (r = ADMIN) && negb (select.memberIsAdmin s u)
      then [u] else []
  | _ => []
  end.

(** Modelled from the spec: rule 2, invalidated authority: any action whose
    author lost admin or membership in the winning concurrent branch is
    filtered out, recursively: a member
    whom a filtered link added has no membership, and a member whom a
    filtered link promoted has no admin role, so that their admin actions
    are filtered in their turn. [s] is the state as the links kept so far
    leave it. *)
Fixpoint invalidate (s : TeamState) (noMember noAdmin : list string)
    (branch : list TeamLink) : list TeamLink :=
  match branch with
  | [] => []
  | l :: rest =>
      if bool_decide (author l ∈ noMember) ||
         (bool_decide (author l ∈ noAdmin) && requiresAdmin l)
      then invalidate s (admits s l ++ noMember) (promotes s l ++ noAdmin) rest
      else l :: invalidate (reducer s l) noMember noAdmin rest
  end.

(** Modelled from the spec: a branch against the other: the links whose
    author lost membership or admin by a removal or demotion of the other
    branch that stands are filtered out, and with them what hangs on
    them. *)
Definition resolveBranch (s : TeamState) (mine theirs : list TeamLink)
  : list TeamLink :=
  let winning := prevailing s theirs mine in
  invalidate s (removedBy winning) (demotedBy winning) mine.

(** Modelled from the spec: the default comparator of the sort on links:
    seniority of the authors, then the hash. *)
Definition precedes (x y : TeamLink) : bool :=
  senior (author x) (author y) ||
  (negb (senior (author y) (author x)) && String.leb (hash x) (hash y)).

(** Modelled from the spec: topoSort over two concurrent branches: of the
    two links that come next, the comparator says which is emitted. *)
Fixpoint interleave (xs : list TeamLink) : list TeamLink -> list TeamLink :=
  fix inner (ys : list TeamLink) : list TeamLink :=
    match xs, ys with
    | [], _ => ys
    | _, [] => xs
    | x :: xs', y :: ys' =>
        if precedes x y then x :: interleave xs' ys else y :: inner ys'
    end.

(** Modelled from the spec: the resolved sequence of two concurrent branches
    that split at the state [s], and the state reduced from it. *)
Definition resolve (s : TeamState) (a b : list TeamLink) : list TeamLink :=
  interleave (resolveBranch s a b) (resolveBranch s b a).

(** Modelled from the spec: reduce over the resolved sequence. *)
Definition reduceConcurrent (s : TeamState) (a b : list TeamLink) : TeamState :=
  foldl reducer s (resolve s a b).

End Resolver.

(** The comparator of a chain as the test that the resolver takes. *)
Definition seniorIn (chain : TeamGraph) (a b : string) : bool :=
  match Seniority.bySeniority chain a b with
  | Ok z => z <? 0
  | Throw _ => false
  end.

End membershipResolver.

(** ** The sort and the reduction of a graph ([crdx], missing from the
       sources) *)

Module topo.
Import membershipResolver.

Section Sort.
(** [comparator x y]: [x] is not after [y]. *)
Variable comparator : TeamLink -> TeamLink -> bool.

(** Modelled from the spec: a root of the remaining graph: a link all of
    whose predecessors are emitted. *)
Definition isRoot (emitted : list Hash) (l : TeamLink) : bool :=
  forallb (fun h => bool_decide (h ∈ emitted)) (prev l).

(** Modelled from the spec: among concurrent candidates, order by
    comparator. *)
Fixpoint insertBy (x : TeamLink) (sorted : list TeamLink) : list TeamLink :=
  match sorted with
  | [] => [x]
  | y :: ys => if comparator x y then x :: sorted else y :: insertBy x ys
  end.

Definition ordered (ls : list TeamLink) : list TeamLink :=
  foldr insertBy [] ls.

(** Modelled from the spec: repeatedly emit the root(s) of the remaining
    graph; there are no more rounds than links. *)
Fixpoint emit (rounds : nat) (emitted : list Hash) (remaining : list TeamLink)
  : list TeamLink :=
  match rounds with
  | O => []
  | S n =>
      match ordered (List.filter (isRoot emitted) remaining) with
      | [] => []
      | roots =>
          roots ++
          emit n ((hash <$> roots) ++ emitted)
               (List.filter (fun l => negb (isRoot emitted l)) remaining)
      end
  end.

(** Modelled from the spec: topoSort(graph, comparator). *)
Definition topoSort (chain : TeamGraph) : list TeamLink :=
  emit (length (links chain)) [] (snd <$> links chain).

End Sort.

(** Modelled from the spec: the default comparator is seniority with a
    tie-break by hash; seniority is [bySeniority] of the chain that is
    sorted. *)
Definition bySeniorityThenHash (chain : TeamGraph) : TeamLink -> TeamLink -> bool :=
  precedes (seniorIn chain).

(** Modelled from the spec: the rules of the resolver are about the links
    that remove, demote or admit; a graph that holds none gives the
    resolver nothing to filter. *)
Definition nothingToResolve (chain : TeamGraph) : bool :=
  forallb
    (fun l =>
       match action l with
       | REMOVE_MEMBER _ _ | REMOVE_MEMBER_ROLE _ _ _
       | ADMIT_MEMBER _ _ _ _ | ADMIT_DEVICE _ _ _ _ _ => false
       | _ => true
       end)
    (snd <$> links chain).

(** Modelled from the spec: the reducer is a pure fold:
    reduce(initialState, topoSort(graph)), here for a graph with
    [nothingToResolve]. *)
Definition reduce (chain : TeamGraph) : TeamState :=
  foldl reducer initialState (topoSort (bySeniorityThenHash chain) chain).

End topo.

(** ** The concurrent branches of [concurrency.cy.ts] *)

Module concurrency.
Import scenario membershipResolver.

(** Alice, Bob (admin) and Charlie, as [alice().addToTeam('Bob')
    .addToTeam('Charlie').promote('Bob')] of [concurrency.cy.ts] leaves the
    team. *)
Definition aliceBobAdminAndCharlie (fuel : nat) : result Team :=
  after (team.addForTesting fuel (person "charlie") [] (Some (laptop "charlie")))
        (aliceAndBobAdmin fuel).

(** What they do while they are disconnected: each link follows the head
    that its author had. *)
Definition offline (h : Hash) (who : string) (a : TeamAction) (after_ : Hash)
  : TeamLink :=
  mkLink h a who [after_].

Definition bobPromotesCharlie : TeamLink :=
  offline "b1" "bob" (ADD_MEMBER_ROLE "charlie" ADMIN []) "#####".
Definition charlieRemovesAlice : TeamLink :=
  offline "b2" "charlie" (REMOVE_MEMBER "alice" []) "b1".
Definition bobDemotesAlice : TeamLink :=
  offline "b4" "bob" (REMOVE_MEMBER_ROLE "alice" ADMIN []) "b3".
Definition aliceDemotesBob : TeamLink :=
  offline "a1" "alice" (REMOVE_MEMBER_ROLE "bob" ADMIN []) "#####".
Definition aliceRemovesBob : TeamLink :=
  offline "a1" "alice" (REMOVE_MEMBER "bob" []) "#####".
Definition bobRemovesAlice : TeamLink :=
  offline "b1" "bob" (REMOVE_MEMBER "alice" []) "#####".
Definition bobAddsDwight : TeamLink :=
  offline "b1" "bob" (ADD_MEMBER (person "dwight") [] []) "#####".
Definition bobRemovesCharlie : TeamLink :=
  offline "b1" "bob" (REMOVE_MEMBER "charlie" []) "#####".
Definition charlieAddsTablet : TeamLink :=
  offline "a2" "charlie"
    (ADD_DEVICE (mkDevice "charlie" "tablet"
                   (createKeyset (mkScope DEVICE "charlie::tablet"))) [])
    "a1".

(** The team of the scenarios, and seniority in its chain. *)
Definition spies : Team := teamOf (aliceBobAdminAndCharlie 1).
Definition rank : string -> string -> bool := seniorIn (graph spies).

End concurrency.

(** ** Two sides of a partition that add the same members *)

Module partition.
Import Seniority.

(** Alice founds the team and adds Bob as an admin. Then the team is split.
    On Alice's side she adds Charlie and then Dwight, both as admins, and
    Charlie adds Erin as an admin. On Bob's side he adds Dwight and then
    Charlie, both as admins, and Dwight adds Erin with no role. *)
Definition r : TeamLink :=
  mkLink "r" (ROOT "team" (user "alice" [])
                (mkDevice "alice" "laptop" (ks DEVICE "alice::laptop")) [])
         "alice" [].
Definition b : TeamLink :=
  mkLink "b" (ADD_MEMBER (user "bob" [ADMIN]) [ADMIN] []) "alice" ["r"].
Definition x1 : TeamLink :=
  mkLink "x1" (ADD_MEMBER (user "charlie" [ADMIN]) [ADMIN] []) "alice" ["b"].
Definition y1 : TeamLink :=
  mkLink "y1" (ADD_MEMBER (user "dwight" [ADMIN]) [ADMIN] []) "alice" ["x1"].
Definition p : TeamLink :=
  mkLink "p" (ADD_MEMBER (user "erin" [ADMIN]) [ADMIN] []) "charlie" ["y1"].
Definition y2 : TeamLink :=
  mkLink "y2" (ADD_MEMBER (user "dwight" [ADMIN]) [ADMIN] []) "bob" ["b"].
Definition x2 : TeamLink :=
  mkLink "x2" (ADD_MEMBER (user "charlie" [ADMIN]) [ADMIN] []) "bob" ["y2"].
Definition q : TeamLink :=
  mkLink "q" (ADD_MEMBER (user "erin" []) [] []) "dwight" ["x2"].

Definition entry (l : TeamLink) : Hash * TeamLink := (hash l, l).

Definition alices : TeamGraph :=
  mkGraph "r" ["p"] (entry <$> [r; b; x1; y1; p]).

Definition bobs : TeamGraph :=
  mkGraph "r" ["q"] (entry <$> [r; b; y2; x2; q]).

(** A store that reduces the graph it holds as section 4.2 has it, with the
    rest as [scenario.localStore] has it. *)
Definition sortingStore : Collaborators := {|
  getState := topo.reduce;
  hashLink := @hashLink scenario.localStore;
  getDeviceId := @getDeviceId scenario.localStore;
  parseDeviceId := @parseDeviceId scenario.localStore;
  normalize := @normalize scenario.localStore;
  createInvitation := @createInvitation scenario.localStore;
  verify := @verify scenario.localStore |}.

(** The instance of Alice on her graph, and the instance of Bob on his. *)
Definition alicesTeam : Team :=
  team.loadTeam (H := sortingStore) alices
    (userContext (scenario.person "alice") (scenario.laptop "alice")).

Definition bobsTeam : Team :=
  team.loadTeam (H := sortingStore) bobs
    (userContext (scenario.person "bob") (scenario.laptop "bob")).

End partition.

(** * Properties *)

Module SeniorityFacts.
Import Seniority.

(** On [concurrentAdds]: the founder before Bob, and Bob, whom the link
    before Charlie's added, before Charlie, asked either way round. *)
Example bySeniority_on_a_chain :
  bySeniority concurrentAdds "alice" "bob" = Ok (-1) /\
  bySeniority concurrentAdds "bob" "alice" = Ok 1 /\
  bySeniority concurrentAdds "bob" "charlie" = Ok (-1) /\
  bySeniority concurrentAdds "charlie" "bob" = Ok 1 /\
  bySeniority concurrentAdds "bob" "erin"
  = Throw "Could not find link that added member erin".
Proof. repeat split; vm_compute; reflexivity. Qed.

(** The founder sorts before everybody. *)
Lemma bySeniority_founder_first chain a b :
  isFounder chain a = Ok true -> bySeniority chain a b = Ok (-1).
Proof. intros H. unfold bySeniority. rewrite H. reflexivity. Qed.

(** Somebody who is not the founder sorts after the founder. *)
Lemma bySeniority_founder_second chain a b :
  isFounder chain a = Ok false -> isFounder chain b = Ok true ->
  bySeniority chain a b = Ok 1.
Proof. intros Ha Hb. unfold bySeniority. rewrite Ha. simpl. rewrite Hb. reflexivity. Qed.

(** Between two members who are not founders, the one whose [ADD_MEMBER]
    link precedes the other's sorts first, in both argument orders. *)
Lemma bySeniority_predecessor_first chain a b la lb :
  isFounder chain a = Ok false -> isFounder chain b = Ok false ->
  linkThatAddedMember chain a = Ok la ->
  linkThatAddedMember chain b = Ok lb ->
  isPredecessor chain la lb = true ->
  isPredecessor chain lb la = false ->
  bySeniority chain a b = Ok (-1) /\ bySeniority chain b a = Ok 1.
Proof.
  intros Ha Hb Hla Hlb Hab Hba. unfold bySeniority.
  rewrite Ha, Hb, Hla, Hlb. simpl. rewrite Hab, Hba. split; reflexivity.
Qed.

(** Where the two [ADD_MEMBER] links are concurrent the comparator answers
    [1] whichever way round it is asked. *)
Lemma bySeniority_concurrent chain a b la lb :
  isFounder chain a = Ok false -> isFounder chain b = Ok false ->
  linkThatAddedMember chain a = Ok la ->
  linkThatAddedMember chain b = Ok lb ->
  concurrent chain la lb = true ->
  bySeniority chain a b = Ok 1 /\ bySeniority chain b a = Ok 1.
Proof.
  intros Ha Hb Hla Hlb Hc. unfold concurrent in Hc.
  apply andb_true_iff in Hc as [Hab Hba].
  apply negb_true_iff in Hab, Hba. unfold bySeniority.
  rewrite Ha, Hb, Hla, Hlb. simpl. rewrite Hab, Hba. split; reflexivity.
Qed.

(** C1 (at the failing input). In [concurrentAdds] Charlie and Dwight are
    distinct members, neither is the founder, and their [ADD_MEMBER] links
    are concurrent; [bySeniority] returns [1] for (charlie, dwight) and [1]
    again for (dwight, charlie): swapping the arguments does not reverse the
    sign, and no hash decides the order. *)
Theorem bySeniority_concurrent_adds_same_sign :
  (exists lc ld,
      linkThatAddedMember concurrentAdds "charlie" = Ok lc /\
      linkThatAddedMember concurrentAdds "dwight" = Ok ld /\
      hash lc <> hash ld /\
      concurrent concurrentAdds lc ld = true) /\
  bySeniority concurrentAdds "charlie" "dwight" = Ok 1 /\
  bySeniority concurrentAdds "dwight" "charlie" = Ok 1.
Proof.
  split.
  - eexists _, _. split; [reflexivity|]. split; [reflexivity|].
    split; [discriminate|]. vm_compute. reflexivity.
  - split; vm_compute; reflexivity.
Qed.

End SeniorityFacts.

(** ** Facts about lists that the selectors rest on *)

Section ListFacts.
Context {A : Type}.

Lemma find_app_first (f : A -> bool) (l1 l2 : list A) :
  List.find f (l1 ++ l2) =
  match List.find f l1 with
  | Some x => Some x
  | None => List.find f l2
  end.
Proof.
  induction l1 as [|x l1 IH]; simpl; [reflexivity|].
  destruct (f x); [reflexivity | exact IH].
Qed.

Lemma find_none_existsb (f : A -> bool) (l : list A) :
  List.find f l = None <-> existsb f l = false.
Proof.
  induction l as [|x l IH]; simpl; [tauto|].
  destruct (f x); simpl; [split; discriminate | exact IH].
Qed.

Lemma find_some_existsb (f : A -> bool) (l : list A) x :
  List.find f l = Some x -> existsb f l = true.
Proof.
  intros Hf. destruct (existsb f l) eqn:He; [reflexivity|].
  apply find_none_existsb in He. congruence.
Qed.

Lemma existsb_false (f : A -> bool) (l : list A) :
  existsb f l = false <-> forall x, x ∈ l -> f x = false.
Proof.
  induction l as [|y l IH]; simpl.
  - split; [intros _ x Hx; inversion Hx | reflexivity].
  - rewrite orb_false_iff, IH. split.
    + intros [Hy Hl] x Hx. apply elem_of_cons in Hx as [->|Hx]; auto.
    + intros Hall. split; [apply Hall; left | intros x Hx; apply Hall; right];
        auto.
Qed.

Lemma filter_none (f : A -> bool) (l : list A) :
  (forall x, In x l -> f x = false) -> List.filter f l = [].
Proof.
  induction l as [|x l IH]; intros Hf; [reflexivity|]. simpl.
  rewrite (Hf x) by (left; reflexivity). apply IH. intros y Hy.
  apply Hf. right. exact Hy.
Qed.

Lemma filter_twice (f g : A -> bool) (l : list A) :
  List.filter f (List.filter g l) = List.filter (fun x => g x && f x) l.
Proof.
  induction l as [|x l IH]; [reflexivity|]. simpl.
  destruct (g x); simpl; [destruct (f x)|]; rewrite IH; reflexivity.
Qed.


End ListFacts.

(** ** The facade *)

Module TeamFacts.
Import scenario.


Section AnyStore.
Context `{Collaborators}.

(** C5. For a claim of type DEVICE whose name parses to [(u, d)],
    [lookupIdentity] returns, and what it returns is decided by four tests in
    this order: MEMBER_REMOVED when the member or server [u] was removed;
    else MEMBER_UNKNOWN when there is no member or server [u]; else
    DEVICE_REMOVED when the device was removed; else DEVICE_UNKNOWN when the
    member has no such device and [u] is no server; else VALID_DEVICE. *)
Theorem lookupIdentity_precedence (t : Team) (identityClaim : KeyScope)
    (u d : string) :
  scopeType identityClaim = DEVICE ->
  parseDeviceId (scopeName identityClaim) = (u, d) ->
  let removed :=
    team.memberWasRemoved u t = true \/ team.serverWasRemoved u t = true in
  let known := team.has u t = true \/ team.hasServer u t = true in
  let deviceRemoved := team.deviceWasRemoved u d t = true in
  let deviceKnown :=
    team.hasDevice u d t = true \/ team.hasServer u t = true in
  exists r,
    team.lookupIdentity identityClaim t = Ok r /\
    (r = MEMBER_REMOVED <-> removed) /\
    (r = MEMBER_UNKNOWN <-> ~ removed /\ ~ known) /\
    (r = DEVICE_REMOVED <-> ~ removed /\ known /\ deviceRemoved) /\
    (r = DEVICE_UNKNOWN <->
       ~ removed /\ known /\ ~ deviceRemoved /\ ~ deviceKnown) /\
    (r = VALID_DEVICE <->
       ~ removed /\ known /\ ~ deviceRemoved /\ deviceKnown).
Proof.
  intros Hty Hparse. cbv zeta. unfold team.lookupIdentity.
  rewrite Hty, Hparse. simpl.
  destruct (team.memberWasRemoved u t), (team.serverWasRemoved u t),
    (team.has u t), (team.hasServer u t), (team.deviceWasRemoved u d t),
    (team.hasDevice u d t); simpl;
    (eexists; split; [reflexivity|]);
    repeat split; intros; try discriminate; intuition (auto; try discriminate).
Qed.

(** C6. [validateInvitation(proof)] returns a result, and the result is
    valid exactly when the team state has an invitation under the id of the
    proof that is not revoked, whose use count is below [maxUses], that
    expires after the current time, and against whose public key the
    signature of the proof verifies. *)
Theorem validateInvitation_valid_iff (t : Team) (now : Z)
    (proof : ProofOfInvitation) :
  exists v,
    team.validateInvitation now proof t = Ok v /\
    (isValid v = true <->
     exists i,
       invitations (state t) !! proofId proof = Some i /\
       revoked i = false /\
       uses i < maxUses i /\
       now < expiration i /\
       verify (proofId proof) (signature proof) (publicKey i) = true) /\
    (isValid v = false <-> exists msg, v = Invalid msg).
Proof.
  unfold team.validateInvitation, team.hasInvitation, team.getInvitation,
    select.hasInvitation, select.getInvitation.
  destruct (invitations (state t) !! proofId proof) as [i|] eqn:Hi.
  - rewrite bool_decide_eq_true_2 by eauto. simpl.
    unfold invitations.invitationCanBeUsed, invitations.validate, invitations.fail.
    destruct (revoked i) eqn:Hr; simpl.
    { eexists. split; [reflexivity|]. split; [split|split].
      - discriminate.
      - intros (i' & Hi' & Hr' & _). congruence.
      - eauto.
      - reflexivity. }
    destruct (uses i <? maxUses i) eqn:Hu; simpl.
    2:{ eexists. split; [reflexivity|]. split; [split|split].
      - discriminate.
      - intros (i' & Hi' & _ & Hu' & _). apply Z.ltb_ge in Hu.
        assert (i' = i) by congruence. subst. lia.
      - eauto.
      - reflexivity. }
    destruct (now <? expiration i) eqn:He; simpl.
    2:{ eexists. split; [reflexivity|]. split; [split|split].
      - discriminate.
      - intros (i' & Hi' & _ & _ & He' & _). apply Z.ltb_ge in He.
        assert (i' = i) by congruence. subst. lia.
      - eauto.
      - reflexivity. }
    apply Z.ltb_lt in Hu, He.
    destruct (verify (proofId proof) (signature proof) (publicKey i)) eqn:Hv.
    + eexists. split; [reflexivity|]. split; [split|split].
      * intros _. exists i. auto.
      * reflexivity.
      * discriminate.
      * intros [msg Hm]. discriminate.
    + eexists. split; [reflexivity|]. split; [split|split].
      * discriminate.
      * intros (i' & Hi' & _ & _ & _ & Hv').
        assert (i' = i) by congruence. subst. congruence.
      * eauto.
      * reflexivity.
  - rewrite bool_decide_eq_false_2 by (intros [? ?]; discriminate). simpl.
    eexists. split; [reflexivity|]. split; [split|split].
    + discriminate.
    + intros (i' & Hi' & _). discriminate.
    + unfold invitations.fail. eauto.
    + reflexivity.
Qed.

(** The store's dispatch leaves the new link at the head of the graph. *)
Lemma getLink_setLink (r : Hash) (hd : list Hash) (h : Hash) (l : TeamLink)
    (ls : list (Hash * TeamLink)) :
  getLink (mkGraph r hd (team.setLink h l ls)) h = Some l.
Proof.
  unfold getLink, team.setLink. simpl.
  destruct (existsb (fun e => bool_decide (e.1 = h)) ls) eqn:He.
  - induction ls as [|[h' l'] ls IH]; [discriminate|].
    rewrite fmap_cons. cbn [existsb fst] in He. cbn [fst].
    destruct (bool_decide (h' = h)) eqn:Hd; cbn [List.find fst].
    + rewrite bool_decide_eq_true_2 by reflexivity. reflexivity.
    + rewrite Hd. apply IH. exact He.
  - rewrite find_app_first. apply find_none_existsb in He. rewrite He. simpl.
    rewrite bool_decide_eq_true_2 by reflexivity. reflexivity.
Qed.

Lemma storeDispatch_appends (a : TeamAction) (t : Team) :
  let h := hashLink a (team.getUserId t) (head (graph t)) in
  head (graph (team.storeDispatch a t)) = [h] /\
  getLink (graph (team.storeDispatch a t)) h
  = Some (mkLink h a (team.getUserId t) (head (graph t))) /\
  state (team.storeDispatch a t) = getState (graph (team.storeDispatch a t)).
Proof.
  cbv zeta. unfold team.storeDispatch. simpl.
  split; [reflexivity|]. split; [apply getLink_setLink | reflexivity].
Qed.

(** A dispatch that leaves no key rotation pending is the store's. *)
Lemma dispatch_no_pending (n : nat) (a : TeamAction) (t : Team) (k : Keyset) :
  team.teamKeys None t = Ok k ->
  pendingKeyRotations (state (team.storeDispatch a t)) = [] ->
  team.dispatch (S n) a None t = (Ok tt, team.storeDispatch a t).
Proof.
  intros Hk Hp. unfold team.dispatch, bind, lift, ret. rewrite Hk. simpl.
  destruct (team.memberIsAdmin _ _); [rewrite Hp|]; reflexivity.
Qed.

(** C7. With exactly one member in the admin role,
    [removeMemberRole(userId, ADMIN)] throws and leaves the instance, graph
    and state, as it was, whoever [userId] is; [removeRole(ADMIN)] always
    throws, leaving the instance as it was; with more than one admin,
    [removeMemberRole(userId, ADMIN)] dispatches the [REMOVE_MEMBER_ROLE]
    link with the lockboxes of the rotated admin keys: where the team keys
    can be read and no key rotation is left pending, the call returns and
    the link is the new head of the graph. *)
Theorem last_admin_protection (fuel : nat) (u : string) (t : Team) :
  let removal :=
    REMOVE_MEMBER_ROLE u ADMIN (team.rotateKeys (inl ADMIN_SCOPE) t) in
  (length (team.membersInRole ADMIN t) = 1%nat ->
   team.removeMemberRole fuel u ADMIN t
   = (Throw "Can't remove the last admin", t)) /\
  team.removeRole fuel ADMIN t = (Throw "Cannot remove admin role", t) /\
  ((1 < length (team.membersInRole ADMIN t))%nat ->
   team.removeMemberRole fuel u ADMIN t = team.dispatch fuel removal None t /\
   (forall n k,
       fuel = S n ->
       team.teamKeys None t = Ok k ->
       pendingKeyRotations (state (team.storeDispatch removal t)) = [] ->
       exists t' h,
         team.removeMemberRole fuel u ADMIN t = (Ok tt, t') /\
         head (graph t') = [h] /\
         getLink (graph t') h
         = Some (mkLink h removal (team.getUserId t) (head (graph t))))).
Proof.
  cbv zeta. split; [|split].
  - intros Hone. unfold team.removeMemberRole, bind, lift. simpl.
    rewrite Hone. reflexivity.
  - reflexivity.
  - intros Hmany.
    assert (team.removeMemberRole fuel u ADMIN t
            = team.dispatch fuel
                (REMOVE_MEMBER_ROLE u ADMIN (team.rotateKeys (inl ADMIN_SCOPE) t))
                None t) as Hcall.
    { unfold team.removeMemberRole, bind, lift. simpl.
      destruct (length (team.membersInRole ADMIN t)) as [|[|m]] eqn:Hm;
        [lia | lia |]. reflexivity. }
    split; [exact Hcall|].
    intros n k -> Hk Hp. rewrite Hcall.
    rewrite (dispatch_no_pending n _ t k Hk Hp).
    destruct (storeDispatch_appends
                (REMOVE_MEMBER_ROLE u ADMIN (team.rotateKeys (inl ADMIN_SCOPE) t))
                t) as (Hh & Hl & _).
    eexists _, _. split; [reflexivity|]. split; [exact Hh | exact Hl].
Qed.

(** The guarded half of C8: on a server [inviteDevice] and [join] throw, and
    the instance is as it was: no link, the same state. *)
Lemma server_cannot_inviteDevice_or_join (fuel : nat) (now : Z)
    (seed : string) (expiration : option Z) (teamKeyring : list Keyset)
    (t : Team) :
  team.isServer t = true ->
  team.inviteDevice fuel now seed expiration t
  = (Throw "Server can't invite a device", t) /\
  team.join fuel teamKeyring t = (Throw "Can't join as member on server", t).
Proof.
  intros Hs. unfold team.inviteDevice, team.join, bind, lift.
  rewrite Hs. split; reflexivity.
Qed.

(** [inviteMember] has no such guard: on a server as anywhere it goes on to
    dispatch the [INVITE_MEMBER] link. *)
Lemma inviteMember_unguarded (fuel : nat) (seed : string)
    (expiration maxUses : option Z) (t : Team) :
  let invitation := createInvitation (normalize seed) expiration maxUses None in
  team.inviteMember fuel seed expiration maxUses t =
  match team.dispatch fuel (INVITE_MEMBER invitation) None t with
  | (Ok _, t') =>
      (Ok (mkInviteResult (invitationId invitation) (normalize seed)), t')
  | (Throw msg, t') => (Throw msg, t')
  end.
Proof. reflexivity. Qed.

(** What the reducer leaves of a member that a link removes: no member by
    that id, and a record of them that the lookup with [includeRemoved]
    finds. *)
Lemma removed_member_is_kept (s : TeamState) (link : TeamLink) (u : string)
    (lbs : list Lockbox) :
  action link = REMOVE_MEMBER u lbs ->
  select.hasMember s u = true ->
  select.hasMember (reducer s link) u = false /\
  select.memberWasRemoved (reducer s link) u = true /\
  exists m,
    select.member (reducer s link) u (select.mkOptions true) = Ok m /\
    userId m = u.
Proof.
  intros Hact Hhas. unfold reducer. rewrite Hact.
  assert (forall (b : bool) s1,
             members (if b then transforms.markPendingKeyRotation u s1 else s1)
             = members s1 /\
             removedMembers
               (if b then transforms.markPendingKeyRotation u s1 else s1)
             = removedMembers s1) as Hmark
    by (intros [] ?; split; reflexivity).
  unfold transforms.removeMember, select.hasMember, select.memberWasRemoved,
    select.member in *. simpl.
  destruct (List.find (fun m => bool_decide (userId m = u)) (members s))
    as [m|] eqn:Hfind; simpl.
  2:{ apply find_none_existsb in Hfind. congruence. }
  destruct (Hmark (select.memberIsAdmin s (author link))
              (setRemovedMembers (removedMembers s ++ [setMemberDevices [] m])
                 (setMembers
                    (List.filter
                       (fun x => negb (bool_decide (userId x = u)))
                       (members s))
                    (transforms.collectLockboxes lbs s)))) as [-> ->].
  simpl.
  apply find_some in Hfind as [_ Hm]. apply bool_decide_eq_true in Hm.
  assert (existsb (fun m0 => bool_decide (userId m0 = u))
            (List.filter (fun x => negb (bool_decide (userId x = u)))
                         (members s)) = false) as Hgone.
  { clear. induction (members s) as [|x xs IH]; [reflexivity|]. simpl.
    destruct (bool_decide (userId x = u)) eqn:Hx; simpl; [exact IH|].
    rewrite Hx. exact IH. }
  split; [exact Hgone|]. split.
  - rewrite existsb_app. simpl. rewrite (bool_decide_eq_true_2 _ Hm).
    rewrite orb_true_r. reflexivity.
  - rewrite !find_app_first.
    apply find_none_existsb in Hgone. rewrite Hgone.
    destruct (List.find _ (removedMembers s)) as [m'|] eqn:Hold.
    + exists m'. split; [reflexivity|].
      apply find_some in Hold as [_ Hm']. apply bool_decide_eq_true in Hm'.
      exact Hm'.
    + simpl. rewrite (bool_decide_eq_true_2 _ Hm). simpl.
      eexists. split; [reflexivity | exact Hm].
Qed.

(** C10. A lookup of one member (an id other than the [ALL] of the list
    overload) without options looks among the removed members too: for a
    member who was removed it returns the record kept of them, while [has]
    is false; it throws exactly for an id that is neither a member's nor a
    removed member's. [device] without options looks among the current
    devices only: for a device that was removed it throws, where the same
    call with [includeRemoved: true] returns the device. *)
Theorem members_includes_removed_device_does_not (t : Team) (u d : string)
    (m : Member) (x : Device) :
  u <> ALL ->
  (List.find (fun m => bool_decide (userId m = u)) (removedMembers (state t))
     = Some m ->
   team.has u t = false ->
   team.members (Some u) None t = Ok (OneMember m)) /\
  ((exists msg, team.members (Some u) None t = Throw msg) <->
   team.has u t = false /\ team.memberWasRemoved u t = false) /\
  team.device u d None t = select.device (state t) u d (select.mkOptions false) /\
  (List.find (fun x => bool_decide (deviceName x = d))
     (List.filter (fun x => bool_decide (deviceUserId x = u))
                  (removedDevices (state t))) = Some x ->
   team.hasDevice u d t = false ->
   (exists msg, team.device u d None t = Throw msg) /\
   team.device u d (Some (select.mkOptions true)) t = Ok x).
Proof.
  intros Hall. unfold team.members, team.has, team.memberWasRemoved. simpl.
  rewrite bool_decide_eq_false_2 by exact Hall.
  unfold select.member, select.hasMember, select.memberWasRemoved. simpl.
  rewrite find_app_first.
  split; [|split; [|split]].
  - intros Hm Hhas. apply find_none_existsb in Hhas. rewrite Hhas, Hm.
    reflexivity.
  - destruct (List.find _ (members (state t))) as [m1|] eqn:H1.
    + simpl. split.
      * intros [msg Hmsg]. discriminate.
      * intros [Hhas _]. apply find_none_existsb in Hhas. congruence.
    + destruct (List.find _ (removedMembers (state t))) as [m2|] eqn:H2; simpl.
      * split.
        -- intros [msg Hmsg]. discriminate.
        -- intros [_ Hrem]. apply find_none_existsb in Hrem. congruence.
      * split; [|eauto]. intros _.
        split; apply find_none_existsb; assumption.
  - reflexivity.
  - intros Hx Hno. unfold team.device, team.hasDevice, select.device,
      select.hasDevice in *. simpl.
    apply find_none_existsb in Hno.
    rewrite !find_app_first, Hno, Hx. simpl. split; [eauto | reflexivity].
Qed.

End AnyStore.

(** C8 (at the failing input). Alice adds a sync server to her team; on the
    instance of the team that runs on the server,
    [inviteMember({ seed, expiration, maxUses })] does not throw: it returns
    the id and the seed, and the graph has a new head, an [INVITE_MEMBER]
    link by the server. The reducer ignores an invitation that a server
    posts: the state that the call leaves holds no invitation by that
    id. *)
Theorem inviteMember_on_server_dispatches (n : nat) :
  exists t r t' link,
    teamOnServer (S n) = Ok t /\
    team.isServer t = true /\
    team.inviteMember (S n) "abc" (Some 2000000000000) (Some 1) t = (Ok r, t') /\
    r = mkInviteResult
          (invitationId
             (createInvitation "abc" (Some 2000000000000) (Some 1) None))
          "abc" /\
    length (links (graph t')) = S (length (links (graph t))) /\
    head (graph t') = [hash link] /\
    getLink (graph t') (hash link) = Some link /\
    getLink (graph t) (hash link) = None /\
    action link
    = INVITE_MEMBER (createInvitation "abc" (Some 2000000000000) (Some 1) None) /\
    author link = "localhost" /\
    prev link = head (graph t) /\
    team.hasInvitation (inviteId r) t = false /\
    team.hasInvitation (inviteId r) t' = false /\
    invitations (state t') = invitations (state t).
Proof.
  eexists _, _, _, (mkLink _ _ _ _).
  split; [vm_compute; reflexivity|].
  split; [vm_compute; reflexivity|].
  split; [vm_compute; reflexivity|].
  repeat match goal with |- _ /\ _ => split end; vm_compute; reflexivity.
Qed.

(** C10 (counterexample). Alice adds a member whose user id is [ALL] and
    removes them. The member was removed and [has] is false, and the record
    of them is kept; [members('ALL')] is the list overload, and returns the
    members of the team, not that record. *)
Lemma members_of_a_removed_ALL_is_the_list :
  allRemoved 2 = Ok (teamOf (allRemoved 2)) /\
  team.memberWasRemoved ALL (teamOf (allRemoved 2)) = true /\
  team.has ALL (teamOf (allRemoved 2)) = false /\
  List.find (fun m => bool_decide (userId m = ALL))
            (removedMembers (state (teamOf (allRemoved 2))))
  = Some (person ALL) /\
  team.members (Some ALL) None (teamOf (allRemoved 2))
  = Ok (AllMembers (members (state (teamOf (allRemoved 2))))) /\
  team.members (Some ALL) None (teamOf (allRemoved 2))
  <> Ok (OneMember (person ALL)).
Proof.
  repeat match goal with |- _ /\ _ => split end;
    try (vm_compute; reflexivity).
  vm_compute. discriminate.
Qed.

(** [lookupIdentity_precedence] at Bob's laptop after Bob was removed. *)
Lemma lookupIdentity_precedence_witness :
  team.lookupIdentity (mkScope DEVICE "bob::laptop") (teamOf (bobRemoved 2))
  = Ok MEMBER_REMOVED.
Proof.
  destruct (lookupIdentity_precedence (H := localStore)
              (teamOf (bobRemoved 2))
              (mkScope DEVICE "bob::laptop") "bob" "laptop"
              eq_refl eq_refl) as (r & Hr & Hremoved & _).
  rewrite Hr. f_equal. apply Hremoved. left. reflexivity.
Defined.

(** [last_admin_protection] on Alice's team, alone and with Bob as the
    second admin. *)
Lemma last_admin_protection_witness :
  team.removeMemberRole 1 "alice" ADMIN (teamOf aliceAlone)
  = (Throw "Can't remove the last admin", teamOf aliceAlone) /\
  exists t' h,
    team.removeMemberRole 1 "bob" ADMIN (teamOf (aliceAndBobAdmin 1))
    = (Ok tt, t') /\
    head (graph t') = [h] /\
    getLink (graph t') h
    = Some (mkLink h
              (REMOVE_MEMBER_ROLE "bob" ADMIN
                 (team.rotateKeys (inl ADMIN_SCOPE)
                    (teamOf (aliceAndBobAdmin 1))))
              "alice" ["###"]).
Proof.
  destruct (last_admin_protection (H := localStore) 1 "alice"
              (teamOf aliceAlone)) as (Hone & _ & _).
  destruct (last_admin_protection (H := localStore) 1 "bob"
              (teamOf (aliceAndBobAdmin 1))) as (_ & _ & Hmany).
  split.
  - apply Hone. reflexivity.
  - destruct Hmany as [_ Hmany]; [vm_compute; lia|].
    apply (Hmany O (mkKeyset TEAM_SCOPE 0)); reflexivity.
Defined.

(** [members_includes_removed_device_does_not] after Alice removed Bob's
    laptop and then Bob. *)
Lemma members_includes_removed_device_does_not_witness :
  team.members (Some "bob") None (teamOf (bobAndLaptopRemoved 2))
  = Ok (OneMember (mkMember "bob" "bob" (createKeyset (mkScope USER "bob"))
                            [ADMIN] [])) /\
  (exists msg,
      team.device "bob" "laptop" None (teamOf (bobAndLaptopRemoved 2))
      = Throw msg) /\
  team.device "bob" "laptop" (Some (select.mkOptions true))
    (teamOf (bobAndLaptopRemoved 2)) = Ok (laptop "bob").
Proof.
  destruct (members_includes_removed_device_does_not
              (teamOf (bobAndLaptopRemoved 2)) "bob" "laptop"
              (mkMember "bob" "bob" (createKeyset (mkScope USER "bob"))
                        [ADMIN] [])
              (laptop "bob"))
    as (Hm & _ & _ & Hd).
  - discriminate.
  - split.
    + apply Hm; reflexivity.
    + apply Hd; reflexivity.
Defined.

End TeamFacts.


(** ** Merging two graphs *)

Module MergeFacts.
Import store.

Section Merge.
Implicit Types a b c : list (Hash * TeamLink).

Lemma hasLink_In a e : In e a -> hasLink a (fst e) = true.
Proof.
  intros He. apply existsb_exists. exists e. split; [exact He|].
  apply bool_decide_eq_true_2. reflexivity.
Qed.

Lemma hasLink_app a b h : hasLink (a ++ b) h = hasLink a h || hasLink b h.
Proof. apply existsb_app. Qed.

Lemma hasLink_cons e b h :
  hasLink (e :: b) h = bool_decide (fst e = h) || hasLink b h.
Proof. reflexivity. Qed.

(** A hash is in what [b] adds to [a] when [b] has it and [a] has not. *)
Lemma hasLink_added a b h :
  hasLink (List.filter (fun e => negb (hasLink a (fst e))) b) h
  = negb (hasLink a h) && hasLink b h.
Proof.
  induction b as [|e b IH]; cbn [List.filter].
  - rewrite andb_false_r. reflexivity.
  - rewrite hasLink_cons.
    destruct (decide (fst e = h)) as [He|Hne].
    + rewrite (bool_decide_eq_true_2 _ He).
      destruct (hasLink a (fst e)) eqn:Ha; cbn [negb].
      * rewrite IH, <- He, Ha. reflexivity.
      * rewrite hasLink_cons, (bool_decide_eq_true_2 _ He), <- He, Ha.
        reflexivity.
    + rewrite (bool_decide_eq_false_2 _ Hne). cbn [orb].
      destruct (hasLink a (fst e)); cbn [negb]; [exact IH|].
      rewrite hasLink_cons, (bool_decide_eq_false_2 _ Hne). exact IH.
Qed.

Lemma find_added a b h :
  hasLink a h = false ->
  List.find (fun e => bool_decide (fst e = h))
            (List.filter (fun e => negb (hasLink a (fst e))) b)
  = List.find (fun e => bool_decide (fst e = h)) b.
Proof.
  intros Ha. induction b as [|e b IH]; [reflexivity|]. simpl.
  destruct (decide (fst e = h)) as [He|Hne].
  - rewrite He, Ha. simpl. rewrite He.
    rewrite bool_decide_eq_true_2 by reflexivity. reflexivity.
  - rewrite (bool_decide_eq_false_2 _ Hne).
    destruct (hasLink a (fst e)); simpl; [exact IH|].
    rewrite (bool_decide_eq_false_2 _ Hne). exact IH.
Qed.

End Merge.

(** The links are unioned, and a hash that both graphs have is kept once,
    with the link of the first. *)
Lemma merge_union (g g' : TeamGraph) (h : Hash) :
  getLink (merge g g') h
  = match getLink g h with
    | Some l => Some l
    | None => getLink g' h
    end.
Proof.
  unfold getLink, merge, mergeLinks. cbn [links].
  rewrite find_app_first.
  destruct (List.find _ (links g)) as [e|] eqn:Hfind; [reflexivity|].
  rewrite find_added; [reflexivity|].
  apply find_none_existsb in Hfind. exact Hfind.
Qed.

Lemma elem_of_headOf (ls : list (Hash * TeamLink)) (h : Hash) :
  h ∈ headOf ls <->
  h ∈ fst <$> ls /\ forall e, e ∈ ls -> h ∉ prev (snd e).
Proof.
  unfold headOf. rewrite list_elem_of_In, filter_In, <- list_elem_of_In.
  rewrite negb_true_iff. unfold hasChild. rewrite existsb_false.
  split; intros [Hh Hno]; (split; [exact Hh|]); intros e He.
  - apply Hno in He. apply bool_decide_eq_false in He. exact He.
  - apply bool_decide_eq_false_2, Hno, He.
Qed.

Lemma elem_of_mergeLinks (a b : list (Hash * TeamLink)) e :
  e ∈ mergeLinks a b <-> e ∈ a \/ (e ∈ b /\ hasLink a (fst e) = false).
Proof.
  unfold mergeLinks. rewrite elem_of_app.
  rewrite (list_elem_of_In (List.filter _ _) e), filter_In, <- list_elem_of_In.
  rewrite negb_true_iff. reflexivity.
Qed.

Lemma find_hash_elem (ls : list (Hash * TeamLink)) h e :
  List.find (fun e => bool_decide (fst e = h)) ls = Some e ->
  e ∈ ls /\ fst e = h.
Proof.
  intros Hf. apply find_some in Hf as [Hin Hk].
  apply bool_decide_eq_true in Hk. split; [apply list_elem_of_In, Hin | exact Hk].
Qed.

(** In an object a hash names one link. *)
Lemma getLink_elem (g : TeamGraph) h l :
  NoDup (fst <$> links g) -> (h, l) ∈ links g -> getLink g h = Some l.
Proof.
  unfold getLink. induction (links g) as [|e ls IH]; intros Hnd Hin;
    [inversion Hin|].
  rewrite fmap_cons in Hnd. apply NoDup_cons in Hnd as [Hfresh Hnd].
  apply elem_of_cons in Hin as [<-|Hin]; simpl.
  - rewrite bool_decide_eq_true_2 by reflexivity. reflexivity.
  - rewrite bool_decide_eq_false_2; [apply IH; assumption|].
    intros He. apply Hfresh. rewrite He.
    apply (list_elem_of_fmap_2 fst _ _ Hin).
Qed.

Lemma hasLink_getLink (g : TeamGraph) h :
  hasLink (links g) h = true <-> is_Some (getLink g h).
Proof.
  unfold getLink, hasLink. split.
  - intros Hh. destruct (List.find _ (links g)) as [e|] eqn:Hf; [eauto|].
    apply find_none_existsb in Hf. congruence.
  - intros [l Hl]. destruct (List.find _ (links g)) as [e|] eqn:Hf;
      [|discriminate].
    apply find_some_existsb in Hf. exact Hf.
Qed.

(** *** The laws on the links and the head *)

(** Idempotence, for a graph whose head is its childless hashes. *)
Lemma merge_idempotent (g : TeamGraph) :
  headIsChildless g -> merge g g = g.
Proof.
  intros Hhead. unfold merge, mergeLinks.
  rewrite filter_none, app_nil_r.
  - rewrite <- Hhead. destruct g; reflexivity.
  - intros e He. rewrite hasLink_In by exact He. reflexivity.
Qed.

(** Associativity. *)
Lemma merge_associative (g1 g2 g3 : TeamGraph) :
  merge (merge g1 g2) g3 = merge g1 (merge g2 g3).
Proof.
  unfold merge. cbn [links root].
  assert (mergeLinks (mergeLinks (links g1) (links g2)) (links g3)
          = mergeLinks (links g1) (mergeLinks (links g2) (links g3))) as ->;
    [|reflexivity].
  unfold mergeLinks. rewrite <- app_assoc. f_equal.
  rewrite List.filter_app. f_equal. rewrite filter_twice.
  apply List.filter_ext. intros e.
  rewrite hasLink_app, hasLink_added.
  destruct (hasLink (links g1) (fst e)), (hasLink (links g2) (fst e));
    reflexivity.
Qed.

(** The two merges of two graphs of one team hold the same links under the
    same hashes, and have the same hashes for head. *)
Lemma merge_commutative_links (g g' : TeamGraph) :
  root g = root g' ->
  NoDup (fst <$> links g) -> NoDup (fst <$> links g') ->
  sameContent g g' ->
  sameLinks (merge g g') (merge g' g).
Proof.
  intros Hroot Hnd Hnd' Hsame.
  assert (forall e, e ∈ links (merge g g') <-> e ∈ links (merge g' g))
    as Helems.
  { assert (forall x y : TeamGraph,
               NoDup (fst <$> links x) -> sameContent x y ->
               forall e, e ∈ links (merge x y) -> e ∈ links (merge y x))
      as Hhalf.
    { intros x y Hx Hxy [h l]. unfold merge. cbn [links].
      rewrite !elem_of_mergeLinks. cbn [fst].
      intros [Hin | [Hin _]]; [|left; exact Hin].
      destruct (hasLink (links y) h) eqn:Hy; [|right; split; auto].
      left. apply hasLink_getLink in Hy as [l' Hl'].
      pose proof (getLink_elem x h l Hx Hin) as Hl.
      rewrite (Hxy h l l' Hl Hl').
      unfold getLink in Hl'.
      destruct (List.find _ (links y)) as [e|] eqn:Hf; [|discriminate].
      apply find_hash_elem in Hf as [He Hk]. injection Hl' as <-.
      rewrite <- Hk. destruct e; exact He. }
    intros e. split; apply Hhalf; try assumption.
    intros h l l' Hl Hl'. symmetry. eapply Hsame; eassumption. }
  split; [exact Hroot|]. split.
  - intros h. rewrite !merge_union.
    destruct (getLink g h) as [l|] eqn:Hl, (getLink g' h) as [l'|] eqn:Hl';
      try reflexivity.
    f_equal. eapply Hsame; eassumption.
  - intros h. unfold merge at 1 2. cbn [head].
    fold (links (merge g g')). fold (links (merge g' g)).
    rewrite !elem_of_headOf, !list_elem_of_fmap.
    split; intros [[e [He Hin]] Hno]; (split; [exists e; split; [exact He|]|]).
    + apply Helems, Hin.
    + intros e' He'. apply Hno, Helems, He'.
    + apply Helems, Hin.
    + intros e' He'. apply Hno, Helems, He'.
Qed.

(** *** [Team.merge] *)

(** [Team.merge] takes the merge of the two graphs for the graph of the
    instance and the state that the store derives from it, and returns when
    that state leaves no key rotation pending. *)
Lemma team_merge_at_rest `{Collaborators} (fuel : nat) (theirGraph : TeamGraph)
    (t : Team) :
  pendingKeyRotations (getState (merge (graph t) theirGraph)) = [] ->
  team.merge fuel theirGraph t
  = (Ok tt,
     mkTeam (context t) (merge (graph t) theirGraph)
            (getState (merge (graph t) theirGraph))).
Proof.
  intros Hp. unfold team.merge, team.checkForPendingKeyRotations, bind, lift,
    team.storeMerge. cbn [state].
  destruct (team.memberIsAdmin _ _); [|reflexivity].
  cbn [state]. rewrite Hp. reflexivity.
Qed.

Import partition.

Lemma alices_bobs_sameContent : sameContent alices bobs.
Proof.
  intros h l l' Hl Hl'. unfold getLink in *. cbn in Hl, Hl'.
  repeat case_bool_decide; simplify_eq/=; reflexivity.
Qed.

(** C3 (at the failing input). On the two sides of a partition the same
    members are added in two orders. The two merges hold the same links
    under the same hashes and have the same head, and neither holds a link
    for the resolver to filter; [bySeniority] finds the link that added a
    member first in the order in which the merge holds its links, and ranks
    Charlie before Dwight on one merge and after Dwight on the other. The
    sort takes Charlie's and Dwight's concurrent links in the two orders,
    and Erin, whom one adds as an admin and the other with no role, is an
    admin in the state reduced from one merge and none in the state reduced
    from the other; so it is on the instances of Alice and Bob once each
    has merged the other's graph. *)
Theorem merge_order_decides_the_state :
  sameLinks (merge alices bobs) (merge bobs alices) /\
  topo.nothingToResolve (merge alices bobs) = true /\
  Seniority.bySeniority (merge alices bobs) "charlie" "dwight" = Ok (-1) /\
  Seniority.bySeniority (merge bobs alices) "charlie" "dwight" = Ok 1 /\
  Seniority.bySeniority (merge bobs alices) "dwight" "charlie" = Ok (-1) /\
  hash <$> topo.topoSort (topo.bySeniorityThenHash (merge alices bobs))
             (merge alices bobs)
  = ["r"; "b"; "x1"; "y2"; "y1"; "x2"; "p"; "q"] /\
  hash <$> topo.topoSort (topo.bySeniorityThenHash (merge bobs alices))
             (merge bobs alices)
  = ["r"; "b"; "x1"; "y2"; "y1"; "x2"; "q"; "p"] /\
  select.memberIsAdmin (topo.reduce (merge alices bobs)) "erin" = true /\
  select.memberIsAdmin (topo.reduce (merge bobs alices)) "erin" = false /\
  forall fuel,
    exists t t',
      team.merge (H := sortingStore) fuel bobs alicesTeam = (Ok tt, t) /\
      team.merge (H := sortingStore) fuel alices bobsTeam = (Ok tt, t') /\
      sameLinks (graph t) (graph t') /\
      team.memberIsAdmin "erin" t = true /\
      team.memberIsAdmin "erin" t' = false.
Proof.
  assert (sameLinks (merge alices bobs) (merge bobs alices)) as Hsame.
  { apply merge_commutative_links.
    - reflexivity.
    - apply (bool_decide_unpack (NoDup _)). vm_compute. exact I.
    - apply (bool_decide_unpack (NoDup _)). vm_compute. exact I.
    - exact alices_bobs_sameContent. }
  split; [exact Hsame|].
  do 8 (split; [vm_compute; reflexivity|]).
  intros fuel. eexists _, _.
  split; [apply (team_merge_at_rest (H := sortingStore)); vm_compute; reflexivity|].
  split; [apply (team_merge_at_rest (H := sortingStore)); vm_compute; reflexivity|].
  split; [exact Hsame|].
  split; vm_compute; reflexivity.
Qed.

End MergeFacts.


(** ** Parent maps *)

Module ParentMapFacts.
Import crdx.

Section Walk.
Context {A : Type}.
Implicit Types (g : Graph A) (X start : gset Hash) (h s : Hash).

Lemma elem_of_step g X h : h ∈ step g X <-> exists a, a ∈ X /\ hop g a h.
Proof.
  unfold step, hop. rewrite elem_of_filter, elem_of_set_bind. split.
  - intros [Hd (a & Ha & Hin)]. exists a. rewrite elem_of_list_to_set in Hin.
    auto.
  - intros (a & Ha & Hin & Hd). split; [exact Hd|]. exists a.
    rewrite elem_of_list_to_set. auto.
Qed.

(** A link with a predecessor is a link of the graph. *)
Lemma hop_source_dom g a b : hop g a b -> a ∈ dom (links g).
Proof.
  intros [Hin _]. unfold parents in Hin. apply elem_of_dom.
  destruct (links g !! a); [eauto | inversion Hin].
Qed.

Lemma walk_source_dom g k s h :
  nsteps (hop g) k s h -> h ∈ dom (links g) -> s ∈ dom (links g).
Proof.
  intros Hw Hh. destruct Hw as [|k x y z Hxy _]; [exact Hh|].
  exact (hop_source_dom _ _ _ Hxy).
Qed.

(** The first [n] levels are the links fewer than [n] hops from a start. *)
Lemma within_hops g start n h :
  h ∈ within n g start <->
  exists s k, s ∈ start /\ s ∈ dom (links g) /\ (k < n)%nat /\
              nsteps (hop g) k s h.
Proof.
  revert h. induction n as [|n IH]; intros h; simpl.
  - split; [set_solver|]. intros (s & k & _ & _ & Hk & _). lia.
  - rewrite elem_of_union, elem_of_intersection, elem_of_step. split.
    + intros [[Hs Hd]|(a & Ha & Hhop)].
      * exists h, O. repeat split; [assumption..|lia|constructor].
      * apply IH in Ha as (s & k & Hs & Hd & Hk & Hw).
        exists s, (S k). repeat split; [assumption..|lia|].
        eapply nsteps_r; eassumption.
    + intros (s & k & Hs & Hd & Hk & Hw).
      destruct k as [|k].
      * inversion Hw; subst. left. auto.
      * apply nsteps_inv_r in Hw as (a & Hw & Hhop). right.
        exists a. split; [|exact Hhop]. apply IH.
        exists s, k. repeat split; [assumption..|lia|assumption].
Qed.

Lemma within_mono g start n m :
  (n <= m)%nat -> within n g start ⊆ within m g start.
Proof.
  intros Hnm h. rewrite !within_hops.
  intros (s & k & Hs & Hd & Hk & Hw). exists s, k.
  repeat split; [assumption..|lia|assumption].
Qed.

Lemma within_dom g start n : within n g start ⊆ dom (links g).
Proof.
  destruct n as [|n]; simpl; [set_solver|]. intros h.
  rewrite elem_of_union, elem_of_intersection, elem_of_step.
  intros [[_ Hd]|(a & _ & _ & Hd)]; exact Hd.
Qed.

(** Once a level adds nothing, no later level does. *)
Lemma within_fixed g start n :
  within (S n) g start = within n g start ->
  forall m, (n <= m)%nat -> within m g start = within n g start.
Proof.
  intros Hfix m Hm. induction Hm as [|m Hm IH]; [reflexivity|].
  simpl. rewrite IH. exact Hfix.
Qed.

(** Until then every level adds a link. *)
Lemma within_grows g start n :
  (exists m, (m <= n)%nat /\ within (S m) g start = within m g start) \/
  (n <= size (within n g start))%nat.
Proof.
  induction n as [|n [(m & Hm & Hfix)|Hsize]].
  - right. lia.
  - left. exists m. split; [lia | exact Hfix].
  - destruct (decide (within (S n) g start = within n g start)) as [Heq|Hne].
    + left. exists n. split; [lia | exact Heq].
    + right.
      assert (within n g start ⊂ within (S n) g start) as Hsub.
      { split; [apply within_mono; lia|]. intros Hback. apply Hne.
        apply set_eq. intros h. split; [apply Hback | apply within_mono; lia]. }
      apply subset_size in Hsub. lia.
Qed.

(** As many levels as the graph has links are all the levels. *)
Lemma within_saturates g start m :
  (size (links g) <= m)%nat ->
  within m g start = within (size (links g)) g start.
Proof.
  intros Hm. destruct (within_grows g start (size (links g)))
    as [(m0 & Hm0 & Hfix)|Hsize].
  - rewrite (within_fixed g start m0 Hfix m) by lia.
    rewrite (within_fixed g start m0 Hfix (size (links g))) by lia.
    reflexivity.
  - assert (within (size (links g)) g start = dom (links g)) as Hall.
    { apply set_subseteq_size_eq; [apply within_dom|].
      rewrite size_dom. exact Hsize. }
    apply within_fixed; [|exact Hm].
    apply set_eq. intros h. split.
    + intros Hh. rewrite Hall. eapply within_dom, Hh.
    + apply within_mono. lia.
Qed.

(** [reachable] is reachability along hops. *)
Lemma reachable_rtc g start h :
  h ∈ reachable g start <->
  exists s, s ∈ start /\ s ∈ dom (links g) /\ rtc (hop g) s h.
Proof.
  unfold reachable. split.
  - rewrite within_hops. intros (s & k & Hs & Hd & _ & Hw).
    exists s. repeat split; [assumption..|]. eapply rtc_nsteps_2, Hw.
  - intros (s & Hs & Hd & Hw). apply rtc_nsteps_1 in Hw as [k Hw].
    rewrite <- (within_saturates g start (S k + size (links g))) by lia.
    apply within_hops. exists s, k.
    repeat split; [assumption..|lia|assumption].
Qed.

Lemma elem_of_tails (m : gmap Hash (list Hash)) s :
  s ∈ tails m <-> (s ∉ dom m) /\ exists x ps, m !! x = Some ps /\ s ∈ ps.
Proof.
  unfold tails. rewrite elem_of_filter, elem_of_union_list. split.
  - intros [Hnot (X & HX & Hs)]. split; [exact Hnot|].
    apply list_elem_of_fmap in HX as ([x ps] & -> & Hin).
    apply elem_of_map_to_list in Hin. rewrite elem_of_list_to_set in Hs.
    eauto.
  - intros [Hnot (x & ps & Hx & Hs)]. split; [exact Hnot|].
    exists (list_to_set ps). split; [|rewrite elem_of_list_to_set; exact Hs].
    apply list_elem_of_fmap. exists (x, ps). split; [reflexivity|].
    apply elem_of_map_to_list. exact Hx.
Qed.


(** C9, as amended. [getParentMap] maps [h] to [ps] exactly when [h] is a
    link of the graph with the immediate predecessors [ps], and
    - a walk from a start reaches [h]: with depth [d] in fewer than [d] hops
      (the starts are the first level), with no depth in any number of hops;
    - with an end set, no link of the end set is [h] or reaches [h];
    - with [prev], the starts are the hashes that [prev] names as
      predecessors and does not hold, instead of the head, and [prev] does
      not hold [h]. *)
Theorem getParentMap_selects g depth end_ prev_ h ps :
  getParentMap g depth end_ prev_ !! h = Some ps <->
  (exists l, links g !! h = Some l /\ prev l = ps) /\
  (exists s, startsAt g prev_ s /\ walks g depth s h) /\
  match end_ with
  | Some e => ~ exists x, x ∈ e /\ rtc (hop g) x h
  | None => True
  end /\
  match prev_ with
  | Some m => h ∉ dom m
  | None => True
  end.
Proof.
  unfold getParentMap. rewrite map_lookup_filter_Some, lookup_fmap. simpl.
  rewrite fmap_Some.
  assert (forall l, links g !! h = Some l -> h ∈ dom (links g)) as Hdom.
  { intros l Hl. apply elem_of_dom. eauto. }
  assert ((exists l, links g !! h = Some l /\ ps = prev l) ->
          (h ∈ within (default (size (links g)) depth) g
                 (match prev_ with None => head g | Some m => tails m end) <->
           exists s, startsAt g prev_ s /\ walks g depth s h)) as Hsel.
  { intros (l & Hl & _). specialize (Hdom l Hl).
    assert (forall s, s ∈ (match prev_ with None => head g | Some m => tails m end)
                      <-> startsAt g prev_ s) as Hstart.
    { intros s. destruct prev_; simpl; [apply elem_of_tails | reflexivity]. }
    destruct depth as [d|]; simpl.
    - rewrite within_hops. split.
      + intros (s & k & Hs & _ & Hk & Hw). exists s.
        split; [apply Hstart, Hs | eauto].
      + intros (s & Hs & k & Hk & Hw). exists s, k.
        repeat split; [apply Hstart, Hs | | lia | exact Hw].
        eapply walk_source_dom; eassumption.
    - fold (reachable g (match prev_ with None => head g | Some m => tails m end)).
      rewrite reachable_rtc. split.
      + intros (s & Hs & _ & Hw). exists s. split; [apply Hstart, Hs | exact Hw].
      + intros (s & Hs & Hw). exists s.
        repeat split; [apply Hstart, Hs | | exact Hw].
        apply rtc_nsteps_1 in Hw as [k Hw].
        eapply walk_source_dom; eassumption. }
  assert ((exists l, links g !! h = Some l /\ ps = prev l) ->
          (h ∉ (match end_ with
                | None => ∅
                | Some e => reachable g (list_to_set e)
                end : gset Hash) <->
           match end_ with
           | Some e => ~ exists x, x ∈ e /\ rtc (hop g) x h
           | None => True
           end)) as Hend.
  { intros (l & Hl & _). specialize (Hdom l Hl).
    destruct end_ as [e|];
      [|split; [trivial | intros _; apply not_elem_of_empty]].
    rewrite reachable_rtc. split.
    - intros Hno (x & Hx & Hw). apply Hno. exists x.
      repeat split; [rewrite elem_of_list_to_set; exact Hx | | exact Hw].
      apply rtc_nsteps_1 in Hw as [k Hw]. eapply walk_source_dom; eassumption.
    - intros Hno (x & Hx & _ & Hw). apply Hno. exists x.
      rewrite elem_of_list_to_set in Hx. auto. }
  assert (h ∉ (match prev_ with None => ∅ | Some m => dom m end : gset Hash)
          <-> match prev_ with Some m => h ∉ dom m | None => True end)
    as Hprev.
  { destruct prev_;
      [reflexivity | split; [trivial | intros _; apply not_elem_of_empty]]. }
  split.
  - intros [Hl (Hs & He & Hp)].
    assert (exists l, links g !! h = Some l /\ ps = prev l) as Hl'.
    { destruct Hl as (l & -> & Hl). eauto. }
    split; [destruct Hl as (l & -> & Hl); eauto|].
    split; [apply Hsel; assumption|].
    split; [apply Hend; assumption | apply Hprev; assumption].
  - intros ((l & Hl & <-) & Hs & He & Hp).
    assert (exists l', links g !! h = Some l' /\ prev l = prev l') as Hl' by eauto.
    split; [eauto|].
    split; [apply Hsel; assumption|].
    split; [apply Hend; assumption | apply Hprev; assumption].
Qed.

End Walk.
(** *** The expectations of [getParentMap.test.ts]

    The test compares the payloads, the root link's being empty; here the
    root link is [R] and shows where the whole graph is selected. *)


Example test_depth_2 : getParentMap testGraph (Some 2%nat) None None = depth2.
Proof. vm_compute. reflexivity. Qed.

Example test_depth_3 :
  getParentMap testGraph (Some 3%nat) None None
  = list_to_map [("f", ["d"]); ("g", ["e"]); ("i", ["h"]); ("k", ["j"]);
                 ("l", ["k"]); ("n", ["l"; "o"]); ("o", ["f"; "g"; "i"])].
Proof. vm_compute. reflexivity. Qed.

Example test_depth_10_entire_graph :
  getParentMap testGraph (Some 10%nat) None None = prev <$> links testGraph /\
  getParentMap testGraph None None None = prev <$> links testGraph.
Proof. split; vm_compute; reflexivity. Qed.

Example test_end_b :
  getParentMap testGraph None (Some ["b"]) None
  = list_to_map [("c", ["b"]); ("d", ["c"]); ("e", ["d"]); ("f", ["d"]);
                 ("g", ["e"]); ("i", ["h"]); ("h", ["b"]); ("k", ["j"]);
                 ("j", ["b"]); ("l", ["k"]); ("n", ["l"; "o"]);
                 ("o", ["f"; "g"; "i"])].
Proof. vm_compute. reflexivity. Qed.

Example test_end_chj :
  getParentMap testGraph None (Some ["c"; "h"; "j"]) None
  = list_to_map [("d", ["c"]); ("e", ["d"]); ("f", ["d"]); ("g", ["e"]);
                 ("i", ["h"]); ("k", ["j"]); ("l", ["k"]); ("n", ["l"; "o"]);
                 ("o", ["f"; "g"; "i"])].
Proof. vm_compute. reflexivity. Qed.

Example test_end_gfik :
  getParentMap testGraph None (Some ["g"; "f"; "i"; "k"]) None = depth2.
Proof. vm_compute. reflexivity. Qed.

Example test_depth_2_plus_2 :
  getParentMap testGraph (Some 2%nat) None (Some depth2)
  = list_to_map [("d", ["c"]); ("e", ["d"]); ("f", ["d"]); ("g", ["e"]);
                 ("h", ["b"]); ("i", ["h"]); ("j", ["b"]); ("k", ["j"])].
Proof. vm_compute. reflexivity. Qed.

Lemma testGraph_hop (a b : Hash) :
  bool_decide (b ∈ parents testGraph a) = true ->
  bool_decide (b ∈ dom (links testGraph)) = true ->
  hop testGraph a b.
Proof.
  rewrite !bool_decide_eq_true. intros H1 H2. split; assumption.
Qed.

(** C9 (counterexample). On the graph of the test, (1) [k] is two hops from
    the head [n], by way of [l], and depth 2 does not select it: the map is
    not the links within [d] hops of the head; (3) with [prev] the map of
    depth 2, and depth 2 again, [a] is a link that [prev] does not cover and
    the map does not hold it: the map is not the parent map of the links
    that [prev] does not cover. *)
Lemma getParentMap_not_hops_not_complement :
  ~ (forall (g : Graph string) (d : nat) (h : Hash),
        h ∈ dom (getParentMap g (Some d) None None) <->
        exists s k, s ∈ head g /\ (k <= d)%nat /\ nsteps (hop g) k s h) /\
  ~ (forall (g : Graph string) (d : nat) (h : Hash),
        let prev_ := getParentMap g (Some d) None None in
        h ∈ dom (getParentMap g (Some d) None (Some prev_)) <->
        h ∈ dom (links g) /\ h ∉ dom prev_).
Proof.
  split.
  - intros Hall. specialize (Hall testGraph 2%nat "k").
    assert ("k" ∉ dom (getParentMap testGraph (Some 2%nat) None None)) as Hno.
    { apply not_elem_of_dom. vm_compute. reflexivity. }
    apply Hno, Hall. exists "n", 2%nat.
    split; [apply elem_of_singleton; reflexivity|].
    split; [lia|].
    apply (nsteps_l _ _ _ "l"); [apply testGraph_hop; vm_compute; reflexivity|].
    apply (nsteps_l _ _ _ "k"); [apply testGraph_hop; vm_compute; reflexivity|].
    constructor.
  - intros Hall. specialize (Hall testGraph 2%nat "a"). cbv zeta in Hall.
    rewrite test_depth_2 in Hall.
    assert ("a" ∉ dom (getParentMap testGraph (Some 2%nat) None (Some depth2)))
      as Hno.
    { apply not_elem_of_dom. vm_compute. reflexivity. }
    apply Hno, Hall. split.
    + apply elem_of_dom. vm_compute. eauto.
    + apply not_elem_of_dom. vm_compute. reflexivity.
Qed.

End ParentMapFacts.


(** ** The membership resolver *)

Module ResolverFacts.
Import membershipResolver.

(** *** What the reducer does to the admin role *)

Lemma memberIsAdmin_members s u :
  select.memberIsAdmin s u = existsb (isAdminEntry u) (members s).
Proof. reflexivity. Qed.

(** A change to the members that keeps who is an admin entry keeps the
    admins. *)
Lemma existsb_admin_fmap (g : Member -> Member) (ms : list Member) u :
  (forall m, isAdminEntry u (g m) = isAdminEntry u m) ->
  existsb (isAdminEntry u) (g <$> ms) = existsb (isAdminEntry u) ms.
Proof.
  intros Hg. induction ms as [|m ms IH]; [reflexivity|].
  rewrite fmap_cons. cbn [existsb]. rewrite IH, Hg. reflexivity.
Qed.

Lemma mapMember_keeps_admins v (f : Member -> Member) s u :
  (forall m, isAdminEntry u (f m) = isAdminEntry u m) ->
  select.memberIsAdmin (transforms.mapMember v f s) u
  = select.memberIsAdmin s u.
Proof.
  intros Hf. rewrite !memberIsAdmin_members. unfold transforms.mapMember.
  simpl. apply existsb_admin_fmap. intros m.
  destruct (bool_decide (userId m = v)); [apply Hf | reflexivity].
Qed.





Lemma isAdminEntry_roles u m rs :
  (ADMIN ∈ rs <-> ADMIN ∈ roles m) ->
  isAdminEntry u (setMemberRoles rs m) = isAdminEntry u m.
Proof.
  intros Hrs. unfold isAdminEntry. destruct m as [uid un mk rs' ds].
  cbn [userId roles setMemberRoles] in *. f_equal. apply bool_decide_ext.
  exact Hrs.
Qed.

Lemma isAdminEntry_not_admin u m :
  ADMIN ∉ roles m -> isAdminEntry u m = false.
Proof.
  intros Hr. unfold isAdminEntry.
  rewrite (bool_decide_eq_false_2 _ Hr). apply andb_false_r.
Qed.

Lemma isAdminEntry_same u m m' :
  userId m' = userId m -> roles m' = roles m ->
  isAdminEntry u m' = isAdminEntry u m.
Proof. unfold isAdminEntry. intros -> ->. reflexivity. Qed.

(** A link that is none of those that change the admins leaves the admins
    as they are. *)
Lemma reducer_keeps_admins s l u :
  changesAdmins l = false ->
  select.memberIsAdmin (reducer s l) u = select.memberIsAdmin s u.
Proof.
  unfold changesAdmins, reducer.
  destruct (action l) eqn:Hact; try discriminate; intros Hquiet.
  all: rewrite ?memberIsAdmin_members; cbn [members setHead].
  all: try reflexivity.
  all: try rewrite Hquiet; cbn [andb].
  all: repeat match goal with
       | |- context [members (if ?c then _ else _)] => destruct c
       end.
  all: try reflexivity.
  all: unfold transforms.addRole, transforms.addMemberRole,
         transforms.removeMemberRole, transforms.addDevice,
         transforms.removeDevice, transforms.changeMemberKeys,
         transforms.changeDeviceKeys, transforms.addServer,
         transforms.addMember, transforms.mapMember; simpl.
  all: repeat match goal with
       | |- context [members (if ?c then _ else _)] => destruct c
       end.
  all: try reflexivity.
  all: try (rewrite existsb_app; cbn [existsb];
            rewrite isAdminEntry_not_admin, !orb_false_r;
            [reflexivity|]; cbn [roles setMemberRoles]).
  all: try (apply existsb_admin_fmap; intros m;
            repeat match goal with
                   | |- context [if ?c then _ else _] => destruct c
                   end;
            try reflexivity).
  - apply bool_decide_eq_false in Hquiet. exact Hquiet.
  - apply bool_decide_eq_false in Hquiet.
    apply isAdminEntry_roles. rewrite elem_of_app, list_elem_of_singleton.
    split; [intros [?|?]; [assumption | congruence] | auto].
  - apply bool_decide_eq_false in Hquiet.
    apply isAdminEntry_roles.
    rewrite (list_elem_of_In (List.filter _ _)), filter_In, <- list_elem_of_In.
    rewrite negb_true_iff, bool_decide_eq_false.
    split; [tauto | intros ?; split; [assumption | congruence]].
  - apply not_elem_of_nil.
Qed.

Lemma foldl_reducer_keeps_admins (ls : list TeamLink) s u :
  Forall (fun l => changesAdmins l = false) ls ->
  select.memberIsAdmin (foldl reducer s ls) u = select.memberIsAdmin s u.
Proof.
  intros Hls. revert s. induction Hls as [|l ls Hl _ IH]; intros s;
    [reflexivity|].
  simpl. rewrite IH. apply reducer_keeps_admins, Hl.
Qed.



(** *** The sort of two branches *)

Section Interleave.
Variable senior : string -> string -> bool.

Lemma elem_of_interleave (xs ys : list TeamLink) (l : TeamLink) :
  l ∈ interleave senior xs ys <-> l ∈ xs \/ l ∈ ys.
Proof.
  revert ys. induction xs as [|x xs IHx]; intros ys.
  - destruct ys; simpl; split; auto; intros [H|H]; auto; inversion H.
  - induction ys as [|y ys IHy].
    + simpl. split; auto. intros [H|H]; auto; inversion H.
    + cbn [interleave]. destruct (precedes senior x y).
      * rewrite elem_of_cons, IHx, !elem_of_cons. tauto.
      * rewrite elem_of_cons. fold (interleave senior (x :: xs) ys).
        rewrite IHy, !elem_of_cons. tauto.
Qed.

Lemma interleave_Forall (P : TeamLink -> Prop) (xs ys : list TeamLink) :
  Forall P xs -> Forall P ys -> Forall P (interleave senior xs ys).
Proof.
  rewrite !Forall_forall. intros Hx Hy l Hl.
  apply elem_of_interleave in Hl as [Hl|Hl]; auto.
Qed.

End Interleave.

(** *** The cascade *)


Section Cascade.
Variable senior : string -> string -> bool.
Variables alice bob charlie : string.
Variables promote demote : TeamLink.
Variables lbs lbs' : list Lockbox.

Hypothesis promote_author : author promote = bob.
Hypothesis promote_action : action promote = ADD_MEMBER_ROLE charlie ADMIN lbs.
Hypothesis demote_author : author demote = alice.
Hypothesis demote_action : action demote = REMOVE_MEMBER_ROLE bob ADMIN lbs'.

















End Cascade.

Import scenario concurrency.


(** The other scenarios of [concurrency.cy.ts] on the same model: Alice and
    Bob demote each other, and Alice, the founder, stays admin; they remove
    each other, and Bob is the one removed; Bob promotes Charlie and is
    removed, and Charlie is no admin; Bob adds Dwight and is demoted, and
    Dwight is not on the team. *)
Example mutual_demote_senior_wins :
  let final :=
    reduceConcurrent rank (state spies) [bobDemotesAlice] [aliceDemotesBob] in
  select.memberIsAdmin final "alice" = true /\
  select.memberIsAdmin final "bob" = false.
Proof. vm_compute. split; reflexivity. Qed.

Example mutual_remove_senior_wins :
  let final :=
    reduceConcurrent rank (state spies) [bobRemovesAlice] [aliceRemovesBob] in
  select.hasMember final "alice" = true /\
  select.hasMember final "bob" = false /\
  select.hasMember final "charlie" = true.
Proof. vm_compute. repeat split; reflexivity. Qed.

Example promoted_by_removed_admin :
  let final :=
    reduceConcurrent rank (state spies) [bobPromotesCharlie] [aliceRemovesBob] in
  select.hasMember final "bob" = false /\
  select.memberIsAdmin final "charlie" = false.
Proof. vm_compute. split; reflexivity. Qed.

Example added_by_demoted_admin :
  let final :=
    reduceConcurrent rank (state spies) [bobAddsDwight] [aliceDemotesBob] in
  select.memberIsAdmin final "bob" = false /\
  select.hasMember final "dwight" = false /\
  select.hasMember final "alice" = true /\
  select.hasMember final "bob" = true.
Proof. vm_compute. repeat split; reflexivity. Qed.

(** What a demoted admin does as an admin is void against the other branch
    too: Bob removes Charlie and is demoted; Charlie, who adds a tablet on
    Alice's side, stays a member and keeps the tablet. *)
Example removal_by_demoted_admin :
  let final :=
    reduceConcurrent rank (state spies) [bobRemovesCharlie]
      [aliceDemotesBob; charlieAddsTablet] in
  select.memberIsAdmin final "bob" = false /\
  select.hasMember final "charlie" = true /\
  select.hasDevice final "charlie" "tablet" = true.
Proof. vm_compute. repeat split; reflexivity. Qed.

(** Seniority that a branch gives itself decides nothing: were Charlie
    ranked above everybody, Bob's promotion of Charlie and what Charlie does
    with it would be filtered out all the same. *)
Example charlie_senior_to_alice :
  let senior a b := bool_decide (a = "charlie") || rank a b in
  let final :=
    reduceConcurrent senior (state spies)
      [bobPromotesCharlie; charlieRemovesAlice] [aliceDemotesBob] in
  select.memberIsAdmin final "bob" = false /\
  select.memberIsAdmin final "charlie" = false /\
  select.hasMember final "alice" = true /\
  select.memberIsAdmin final "alice" = true.
Proof. vm_compute. repeat split; reflexivity. Qed.

End ResolverFacts.


(** ** The comparator *)

Module ComparatorFacts.
Import Seniority.

(** X1. [bySeniority] returns exactly when the chain holds its root link and
    either one of the two is the founder or each has an [ADD_MEMBER] link. *)
Theorem bySeniority_returns_iff (chain : TeamGraph) (a b : string) :
  (exists z, bySeniority chain a b = Ok z) <->
  exists rootLink,
    getLink chain (root chain) = Some rootLink /\
    (author rootLink = a \/ author rootLink = b \/
     (exists la lb,
         List.find (addedMember a) (snd <$> links chain) = Some la /\
         List.find (addedMember b) (snd <$> links chain) = Some lb)).
Proof.
  unfold bySeniority, isFounder, linkThatAddedMember.
  destruct (getLink chain (root chain)) as [r|]; simpl.
  2:{ split; [intros [z Hz]; discriminate | intros (r & Hr & _); discriminate]. }
  destruct (bool_decide (author r = a)) eqn:Ha.
  { apply bool_decide_eq_true in Ha. split; eauto. }
  destruct (bool_decide (author r = b)) eqn:Hb.
  { apply bool_decide_eq_true in Hb. split; eauto. }
  apply bool_decide_eq_false in Ha, Hb.
  destruct (List.find (addedMember a) _) as [la|] eqn:Hla; simpl.
  2:{ split; [intros [z Hz]; discriminate|].
      intros (r' & Hr & [?|[?|(la & lb & Hx & _)]]); try congruence. }
  destruct (List.find (addedMember b) _) as [lb|] eqn:Hlb; simpl.
  2:{ split; [intros [z Hz]; discriminate|].
      intros (r' & Hr & [?|[?|(la' & lb & _ & Hx)]]); try congruence. }
  split.
  - intros _. exists r. split; [reflexivity|]. right. right. eauto.
  - intros _. destruct (isPredecessor chain la lb); eauto.
Qed.

(** X2. [bySeniority] answers [-1] or [1] or throws: it never answers [0], not
    for a member compared with themselves either. *)
Theorem bySeniority_never_zero (chain : TeamGraph) (a b : string) :
  bySeniority chain a b = Ok (-1) \/
  bySeniority chain a b = Ok 1 \/
  exists msg, bySeniority chain a b = Throw msg.
Proof.
  unfold bySeniority.
  destruct (isFounder chain a) as [[|]|]; simpl; eauto.
  destruct (isFounder chain b) as [[|]|]; simpl; eauto.
  destruct (linkThatAddedMember chain a); simpl; eauto.
  destruct (linkThatAddedMember chain b); simpl; eauto.
  destruct (isPredecessor chain _ _); eauto.
Qed.

End ComparatorFacts.

(** ** The facade: what every call keeps *)

Module FacadeFacts.
Import scenario envelopes.

Section AnyStore.
Context `{Collaborators}.

Lemma posted_refl (t : Team) : posted t t.
Proof.
  unfold posted. split; [reflexivity|]. split; [reflexivity|].
  split; [auto|]. split; [lia | left; reflexivity].
Qed.

Lemma headedBy_user (t t1 t' : Team) :
  context t1 = context t -> headedBy t1 t' -> headedBy t t'.
Proof.
  intros Hc (l & Hh & Hl & Ha & Hs). exists l.
  unfold team.getUserId in *. rewrite <- Hc. auto.
Qed.

Lemma posted_trans (t t1 t' : Team) : posted t t1 -> posted t1 t' -> posted t t'.
Proof.
  intros (Hc & Hr & Hk & Hn & Hp) (Hc' & Hr' & Hk' & Hn' & Hp').
  unfold posted. split; [congruence|]. split; [congruence|].
  split; [auto|]. split; [lia|].
  destruct Hp' as [->|Hp']; [exact Hp|].
  right. exact (headedBy_user _ _ _ Hc Hp').
Qed.

Lemma setLink_keeps (h h' : Hash) (l : TeamLink) (ls : list (Hash * TeamLink)) :
  is_Some (List.find (fun e => bool_decide (e.1 = h')) ls) ->
  is_Some (List.find (fun e => bool_decide (e.1 = h')) (team.setLink h l ls)).
Proof.
  unfold team.setLink.
  destruct (existsb (fun e => bool_decide (e.1 = h)) ls).
  - induction ls as [|[h0 l0] ls IH]; [auto|].
    rewrite fmap_cons. cbn [List.find fst].
    destruct (bool_decide (h0 = h)) eqn:H0; cbn [fst].
    + apply bool_decide_eq_true in H0. subst h0.
      destruct (bool_decide (h = h')); [eauto | exact IH].
    + destruct (bool_decide (h0 = h')); [eauto | exact IH].
  - intros Hs. rewrite find_app_first.
    destruct (List.find _ ls); [eauto | destruct Hs; discriminate].
Qed.

Lemma setLink_length (h : Hash) (l : TeamLink) (ls : list (Hash * TeamLink)) :
  (length ls <= length (team.setLink h l ls))%nat.
Proof.
  unfold team.setLink. destruct (existsb _ ls).
  - rewrite length_fmap. lia.
  - rewrite length_app. simpl. lia.
Qed.

Lemma storeDispatch_headedBy (a : TeamAction) (t : Team) :
  headedBy t (team.storeDispatch a t).
Proof.
  exists (mkLink (hashLink a (team.getUserId t) (head (graph t))) a
                 (team.getUserId t) (head (graph t))).
  unfold team.storeDispatch. simpl.
  split; [reflexivity|]. split; [apply TeamFacts.getLink_setLink|].
  split; reflexivity.
Qed.

Lemma storeDispatch_posted (a : TeamAction) (t : Team) :
  posted t (team.storeDispatch a t).
Proof.
  unfold posted. split; [reflexivity|]. split; [reflexivity|].
  split; [|split].
  - intros h. unfold getLink, team.storeDispatch. simpl.
    rewrite !fmap_is_Some. apply setLink_keeps.
  - unfold team.storeDispatch. simpl. apply setLink_length.
  - right. apply storeDispatch_headedBy.
Qed.

(** What [bind], [lift] and [forEach] keep of a property of the instance
    that a call leaves. *)
Lemma bind_posted {A B} (m : M A) (k : A -> M B) (t : Team) :
  posted t (m t).2 ->
  (forall a t1, posted t1 (k a t1).2) ->
  posted t (bind m k t).2.
Proof.
  intros Hm Hk. unfold bind. destruct (m t) as [[a|msg] t1]; simpl in *.
  - eapply posted_trans; [exact Hm | apply Hk].
  - exact Hm.
Qed.

Lemma bind_eq {A B} (m : M A) (k : A -> M B) (t : Team) :
  bind m k t =
  match m t with
  | (Ok a, t') => k a t'
  | (Throw msg, t') => (Throw msg, t')
  end.
Proof. reflexivity. Qed.

Lemma forEach_posted {A} (body : A -> M unit) (xs : list A) :
  (forall x t, posted t (body x t).2) ->
  forall t, posted t (forEach body xs t).2.
Proof.
  intros Hb. induction xs as [|x xs IH]; intros t; simpl.
  - apply posted_refl.
  - apply bind_posted; [apply Hb | intros _ t1; apply IH].
Qed.

Lemma dispatch_posted (fuel : nat) (a : TeamAction) (tk : option Keyset)
    (t : Team) :
  posted t (team.dispatch fuel a tk t).2.
Proof.
  revert a tk t. induction fuel as [|n IH]; intros a tk t.
  - apply posted_refl.
  - cbn [team.dispatch].
    apply bind_posted.
    { destruct tk; simpl; apply posted_refl. }
    intros _ t1. apply bind_posted; [apply storeDispatch_posted|].
    intros _ t2. apply bind_posted; [apply posted_refl|].
    intros [|] t3; [|apply posted_refl].
    apply bind_posted; [apply posted_refl|].
    intros pending t4. apply forEach_posted.
    intros u t5. apply bind_posted; [apply posted_refl|].
    intros lbs t6. apply IH.
Qed.

(** X3. [dispatch], with the rotations that its [updated] listener dispatches
    in its turn, at any depth and whether it returns or throws half way:
    the context and the root of the graph are as they were, no hash of the
    graph is lost, and when anything changed the graph has one head, a link
    of the local user's, and the state is the one derived from the graph.
    When the call returns, something was posted. *)
Theorem dispatch_posts (fuel : nat) (a : TeamAction) (tk : option Keyset)
    (t : Team) :
  posted t (team.dispatch fuel a tk t).2 /\
  match (team.dispatch fuel a tk t).1 with
  | Ok _ => headedBy t (team.dispatch fuel a tk t).2
  | Throw _ => True
  end.
Proof.
  split; [apply dispatch_posted|].
  destruct fuel as [|n]; [exact I|].
  cbn [team.dispatch]. rewrite bind_eq.
  destruct (match tk with Some k => ret k | None => lift (team.teamKeys None) end t)
    as [[k|msg] t1] eqn:Hk; [|exact I].
  assert (t1 = t) as ->.
  { destruct tk; unfold ret, lift in Hk; congruence. }
  rewrite bind_eq. cbn [fst snd].
  set (rest := bind _ _).
  pose proof (storeDispatch_headedBy a t) as Hh.
  pose proof (storeDispatch_posted a t) as Hp.
  assert (posted (team.storeDispatch a t) (rest (team.storeDispatch a t)).2) as Hr.
  { subst rest. apply bind_posted; [apply posted_refl|].
    intros [|] t3; [|apply posted_refl].
    apply bind_posted; [apply posted_refl|].
    intros pending t4. apply forEach_posted.
    intros u t5. apply bind_posted; [apply posted_refl|].
    intros lbs t6. apply dispatch_posted. }
  destruct (rest (team.storeDispatch a t)) as [[[]|msg] t'] eqn:Hrest;
    [|exact I].
  simpl in *. destruct Hr as (Hc & _ & _ & _ & [->|Hr]); [exact Hh|].
  destruct Hp as (Hc' & _). exact (headedBy_user _ _ _ Hc' Hr).
Qed.

Ltac keeps :=
  repeat first
    [ apply dispatch_posted
    | apply posted_refl
    | apply bind_posted; [|intros ? ?]
    | match goal with
      | |- posted _ ((if ?b then _ else _) _).2 => destruct b
      | |- posted _ (match ?x with _ => _ end _).2 => destruct x
      end ].

(** X4. Every method that posts to the graph, whatever it is given and whether
    it returns or throws, leaves the context and the root of the graph as
    they were and loses no hash of the graph; when it changed anything the
    graph has one head, a link of the local user's, and the state is the
    one derived from the graph. *)
Theorem methods_post (fuel : nat) (t : Team) :
  (forall u rs d, posted t (team.addForTesting fuel u rs d t).2) /\
  (forall u rs, posted t (team.add fuel u rs t).2) /\
  (forall u, posted t (team.remove fuel u t).2) /\
  (forall r, posted t (team.addRole fuel r t).2) /\
  (forall r, posted t (team.removeRole fuel r t).2) /\
  (forall u r, posted t (team.addMemberRole fuel u r t).2) /\
  (forall u r, posted t (team.removeMemberRole fuel u r t).2) /\
  (forall u d, posted t (team.removeDevice fuel u d t).2) /\
  (forall seed e m, posted t (team.inviteMember fuel seed e m t).2) /\
  (forall now seed e, posted t (team.inviteDevice fuel now seed e t).2) /\
  (forall id, posted t (team.revokeInvitation fuel id t).2) /\
  (forall now proof k n, posted t (team.admitMember fuel now proof k n t).2) /\
  (forall now proof d, posted t (team.admitDevice fuel now proof d t).2) /\
  (forall keyring, posted t (team.join fuel keyring t).2) /\
  (forall x, posted t (team.addServer fuel x t).2) /\
  (forall h, posted t (team.removeServer fuel h t).2).
Proof.
  repeat match goal with |- _ /\ _ => split end; intros;
    unfold team.addForTesting, team.add, team.remove, team.addRole,
      team.removeRole, team.addMemberRole, team.removeMemberRole,
      team.removeDevice, team.inviteMember, team.inviteDevice,
      team.revokeInvitation, team.admitMember, team.admitDevice, team.join,
      team.addServer, team.removeServer;
    keeps.
Qed.

Lemma bind_lift {A B} (r : Team -> result A) (k : A -> M B) (t : Team) :
  bind (lift r) k t =
  match r t with
  | Ok a => k a t
  | Throw msg => (Throw msg, t)
  end.
Proof. reflexivity. Qed.






Lemma maxGeneration_attained (keyring : list Keyset) :
  keyring <> [] ->
  existsb (fun k => bool_decide (generation k = select.maxGeneration keyring))
          keyring = true.
Proof.
  unfold select.maxGeneration.
  induction keyring as [|k ks IH]; [congruence|]. intros _.
  rewrite fmap_cons. cbn [foldr existsb].
  destruct ks as [|k' ks].
  - simpl. rewrite Nat.max_0_r, bool_decide_eq_true_2 by reflexivity.
    reflexivity.
  - specialize (IH ltac:(discriminate)).
    set (m := foldr Nat.max 0%nat (generation <$> k' :: ks)) in *.
    destruct (Nat.max_spec (generation k) m) as [[Hlt ->]|[Hle ->]].
    + rewrite IH. apply orb_true_r.
    + rewrite bool_decide_eq_true_2 by reflexivity. reflexivity.
Qed.

Lemma getLatestGeneration_nonempty (keyring : list Keyset) :
  keyring <> [] -> is_Some (team.getLatestGeneration keyring).
Proof.
  intros Hne. unfold team.getLatestGeneration.
  destruct (List.find _ keyring) eqn:Hf; [eauto|].
  apply find_none_existsb in Hf.
  rewrite (maxGeneration_attained keyring Hne) in Hf. discriminate.
Qed.

(** X6. [join] with a keyring that holds a keyset hands [dispatch] its team
    keys, so [this.teamKeys()] is not evaluated: whether or not the device
    can open any lockbox of the graph, the [ADD_DEVICE] link for the
    context's device is posted, with the user's keys sealed for the
    device. *)
Theorem join_reads_no_lockbox (n : nat) (keyring : list Keyset) (t : Team) :
  let device := ctxDevice (context t) in
  let a :=
    ADD_DEVICE device
      [lockbox.create (memberKeys (ctxUser (context t))) (deviceKeys device)] in
  team.isServer t = false ->
  keyring <> [] ->
  team.memberIsAdmin (team.getUserId t) (team.storeDispatch a t) = false \/
  pendingKeyRotations (state (team.storeDispatch a t)) = [] ->
  team.join (S n) keyring t = (Ok tt, team.storeDispatch a t).
Proof.
  cbv zeta. intros Hs Hne Hquiet. unfold team.join.
  rewrite bind_lift, Hs. cbn [negb assert].
  destruct (getLatestGeneration_nonempty keyring Hne) as [k ->].
  rewrite bind_lift. cbn [team.dispatch]. rewrite bind_eq. cbn [ret].
  rewrite bind_eq, bind_lift.
  match goal with
  | |- context [team.memberIsAdmin (team.getUserId ?t1) ?t1] =>
      change (team.getUserId t1) with (team.getUserId t)
  end.
  destruct Hquiet as [-> | Hp]; [reflexivity|].
  destruct (team.memberIsAdmin _ _); [|reflexivity].
  rewrite bind_lift, Hp. reflexivity.
Qed.

(** [removeDevice] for a device that the member does not have returns at
    once: nothing is read, rotated or posted, and the instance is as it
    was, even where a dispatch would throw. For a device that the member
    has, the call is the dispatch of the [REMOVE_DEVICE] link with the
    lockboxes that rotate what the device's keys could open. *)
Lemma removeDevice_unknown_is_noop (fuel : nat) (u d : string) (t : Team) :
  (team.hasDevice u d t = false ->
   team.removeDevice fuel u d t = (Ok tt, t)) /\
  (team.hasDevice u d t = true ->
   team.removeDevice fuel u d t
   = team.dispatch fuel
       (REMOVE_DEVICE u d
          (team.rotateKeys (inl (mkScope DEVICE (getDeviceId u d))) t))
       None t).
Proof.
  unfold team.removeDevice. rewrite bind_lift.
  split; intros ->; reflexivity.
Qed.

(** A proof of invitation that does not validate: both calls throw the
    error of the validation. *)
Lemma admit_invalid (fuel : nat) (now : Z) (proof : ProofOfInvitation)
    (t : Team) (v : ValidationResult) :
  team.validateInvitation now proof t = Ok v ->
  isValid v = false ->
  (forall mkeys uname,
      team.admitMember fuel now proof mkeys uname t
      = (Throw (team.validationError v), t)) /\
  (forall d,
      team.admitDevice fuel now proof d t
      = (Throw (team.validationError v), t)).
Proof.
  intros Hv Hvalid. unfold team.admitMember, team.admitDevice.
  split; intros; rewrite bind_lift, Hv, Hvalid; reflexivity.
Qed.

(** A proof of invitation that validates, where the team keys can be read:
    [admitMember] is the dispatch. *)
Lemma admitMember_valid (fuel : nat) (now : Z) (proof : ProofOfInvitation)
    (t : Team) (v : ValidationResult) (mkeys : Keyset) (uname : string)
    (k : Keyset) :
  team.validateInvitation now proof t = Ok v ->
  isValid v = true ->
  team.teamKeys None t = Ok k ->
  team.admitMember fuel now proof mkeys uname t
  = team.dispatch fuel
      (ADMIT_MEMBER (proofId proof) uname mkeys [lockbox.create k mkeys])
      None t.
Proof.
  intros Hv Hvalid Hk. unfold team.admitMember.
  rewrite bind_lift, Hv, Hvalid. cbn [negb].
  rewrite bind_lift, Hk. reflexivity.
Qed.

(** X7. [admitMember] and [admitDevice] post nothing on a proof of invitation
    that does not validate: they throw the error of the validation and the
    instance is as it was. [admitDevice] throws as well, nothing posted,
    for a device of another user than the local one, valid invitation or
    not. Past these checks the call is the dispatch of the [ADMIT_MEMBER]
    link with the team keys sealed for the new member's keys, or of the
    [ADMIT_DEVICE] link with the local user's keys sealed for the
    device's: neither asks whether the local user is an admin nor whether
    the instance runs on a server. *)
Theorem admit_gate (fuel : nat) (now : Z) (proof : ProofOfInvitation)
    (t : Team) (v : ValidationResult) :
  team.validateInvitation now proof t = Ok v ->
  (isValid v = false ->
   (forall mkeys uname,
       team.admitMember fuel now proof mkeys uname t
       = (Throw (team.validationError v), t)) /\
   (forall d,
       team.admitDevice fuel now proof d t
       = (Throw (team.validationError v), t))) /\
  (isValid v = true ->
   (forall mkeys uname k,
       team.teamKeys None t = Ok k ->
       team.admitMember fuel now proof mkeys uname t
       = team.dispatch fuel
           (ADMIT_MEMBER (proofId proof) uname mkeys [lockbox.create k mkeys])
           None t) /\
   (forall d,
       team.getUserId t <> deviceUserId d ->
       team.admitDevice fuel now proof d t
       = (Throw "Can't admit someone else's device", t)) /\
   (forall d,
       team.getUserId t = deviceUserId d ->
       team.admitDevice fuel now proof d t
       = team.dispatch fuel
           (ADMIT_DEVICE (proofId proof) (deviceUserId d) (deviceName d)
              (deviceKeys d)
              [lockbox.create (memberKeys (ctxUser (context t))) (deviceKeys d)])
           None t)).
Proof.
  intros Hv. split; intros Hvalid.
  - exact (admit_invalid fuel now proof t v Hv Hvalid).
  - split; [|split]; intros.
    + apply (admitMember_valid fuel now proof t v); assumption.
    + unfold team.admitDevice. rewrite bind_lift, Hv, Hvalid. cbn [negb].
      rewrite bind_lift, bool_decide_eq_false_2 by assumption. reflexivity.
    + unfold team.admitDevice. rewrite bind_lift, Hv, Hvalid. cbn [negb].
      rewrite bind_lift, bool_decide_eq_true_2 by assumption. reflexivity.
Qed.


Lemma mapM_Ok {A B} (f : A -> result B) (l : list A) (ys : list B) :
  mapM f l = Ok ys ->
  length ys = length l /\
  forall i x, l !! i = Some x -> exists y, f x = Ok y /\ ys !! i = Some y.
Proof.
  revert ys. induction l as [|a l IH]; intros ys; simpl.
  - intros [= <-]. split; [reflexivity|]. intros i x Hx. discriminate.
  - destruct (f a) as [y|msg] eqn:Hy; simpl; [|discriminate].
    destruct (mapM f l) as [k|msg]; simpl; [|discriminate].
    intros [= <-]. destruct (IH k eq_refl) as [Hlen Hall].
    split; [simpl; congruence|].
    intros [|i] x Hx; simpl in *.
    + injection Hx as <-. eauto.
    + apply Hall. exact Hx.
Qed.

(** X9. [createMemberLockboxes] asks for the keys of the member's [i]-th role
    at generation [i]: [member.roles.map(this.roleKeys)] hands [roleKeys]
    the index for its second parameter. When it returns, there is one
    lockbox for each role, in the order of the roles, holding the keys
    that [roleKeys(role, i)] gave, and a last one holding the current team
    keys, each sealed for the member's keys. *)
Theorem createMemberLockboxes_generation_is_index (m : Member) (t : Team)
    (lbs : list Lockbox) :
  team.createMemberLockboxes m t = Ok lbs ->
  length lbs = S (length (roles m)) /\
  (forall (i : nat) r,
      roles m !! i = Some r ->
      exists k,
        team.roleKeys r (Some i) t = Ok k /\
        lbs !! i = Some (lockbox.create k (memberKeys m))) /\
  (exists k,
      team.teamKeys None t = Ok k /\
      lbs !! length (roles m) = Some (lockbox.create k (memberKeys m))).
Proof.
  unfold team.createMemberLockboxes.
  destruct (mapM _ _) as [rks|msg] eqn:Hrks; simpl; [|discriminate].
  destruct (team.teamKeys None t) as [tk|msg]; simpl; [|discriminate].
  intros [= <-].
  apply mapM_Ok in Hrks as [Hlen Hall]. rewrite length_imap in Hlen.
  split; [|split].
  - rewrite length_fmap, length_app. simpl. lia.
  - intros i r Hr.
    destruct (Hall i (i, r)) as (k & Hk & Hi).
    { rewrite list_lookup_imap, Hr. reflexivity. }
    exists k. split; [exact Hk|].
    rewrite list_lookup_fmap, lookup_app_l by (apply lookup_lt_Some in Hi; lia).
    rewrite Hi. reflexivity.
  - exists tk. split; [reflexivity|].
    rewrite list_lookup_fmap, lookup_app_r by lia.
    rewrite Hlen, Nat.sub_diag. reflexivity.
Qed.

(** The id [ALL] is the sentinel of the list overloads: [members], [roles]
    and [servers] called with it return the whole list, whatever the
    options, and never throw, so a member, role or server by that name
    cannot be looked up on its own. *)
Lemma all_sentinel (options : option select.Options) (t : Team) :
  team.members (Some ALL) options t = Ok (AllMembers (members (state t))) /\
  team.members None options t = Ok (AllMembers (members (state t))) /\
  team.roles (Some ALL) t = Ok (AllRoles (teamRoles (state t))) /\
  team.roles None t = Ok (AllRoles (teamRoles (state t))) /\
  team.servers (Some ALL) options t = Ok (AllServers (servers (state t))) /\
  team.servers None options t = Ok (AllServers (servers (state t))).
Proof. repeat split. Qed.

End AnyStore.

(** ** Envelopes and identity proofs *)

Section Envelopes.
Context `{Collaborators} `{Crypto}.

(** The keys that [keys(scope)] gives are the ones that
    [keys({ ...scope, generation })] gives for their generation. *)
Lemma keys_at_own_generation (scope : KeyScope) (t : Team) (k : Keyset) :
  team.keys scope None t = Ok k ->
  team.keys scope (Some (generation k)) t = Ok k /\ keyScope k = scope.
Proof.
  unfold team.keys, select.keys.
  set (keyring := List.filter _ _).
  destruct (negb (bool_decide (keyring = []))); simpl; [|discriminate].
  destruct (List.find _ keyring) as [k'|] eqn:Hf; simpl; [|discriminate].
  intros [= ->].
  pose proof (find_some _ _ Hf) as [Hin Hg].
  apply bool_decide_eq_true in Hg. rewrite Hg, Hf. split; [reflexivity|].
  subst keyring. apply filter_In in Hin as [_ Hs].
  unfold scopesMatch in Hs. apply bool_decide_eq_true in Hs. exact Hs.
Qed.

(** X10. What [encrypt] seals, [decrypt] opens, on one instance and where the
    cipher opens with the key it sealed with: the envelope names the scope
    and the generation of the keys that sealed it, and [decrypt] asks for
    the keys of that scope at that generation. Without a role name, and
    with the empty one, the scope is the team's. *)
Theorem encrypt_decrypt_round_trip (payload : string) (r : option string)
    (t : Team) (e : EncryptedEnvelope) :
  (forall p k, symmetricDecrypt (symmetricEncrypt p k) k = Ok p) ->
  team.encrypt payload r t = Ok e ->
  team.decrypt e t = Ok payload /\
  team.keys (keyScope (envRecipient e)) None t = Ok (envRecipient e) /\
  keyScope (envRecipient e)
  = match r with
    | Some name => if bool_decide (name = "") then TEAM_SCOPE else mkScope ROLE name
    | None => TEAM_SCOPE
    end.
Proof.
  intros Hround. unfold team.encrypt, team.decrypt.
  fold (team.encryptionScope r).
  destruct (team.keys (team.encryptionScope r) None t) as [k|msg] eqn:Hk;
    simpl; [|discriminate].
  intros [= <-]. simpl.
  destruct (keys_at_own_generation _ _ _ Hk) as [Hg Hs].
  rewrite Hg. simpl. split; [apply Hround|]. split; [|reflexivity].
  rewrite Hk. f_equal. destruct k as [s g]. simpl in Hs. subst s. reflexivity.
Qed.

(** X11. [verify] looks the author up by the name of the author's key scope
    alone, among the members and the removed members: the type and the
    generation that the envelope gives for the author's keys are not
    looked at. What the local user signs verifies on the same instance
    when the user's keys are named by a member's id and are that member's
    current keys, under a signature scheme that verifies what it signed. *)
Theorem verify_by_author_name (t : Team) :
  (forall c s ty ty' n g g',
      team.verify (mkSigned c s (mkKeyset (mkScope ty n) g)) t
      = team.verify (mkSigned c s (mkKeyset (mkScope ty' n) g')) t) /\
  (forall contents m,
      (forall c k, signaturesVerify c (signaturesSign c k) k = true) ->
      team.members
        (Some (scopeName (keyScope (memberKeys (ctxUser (context t))))))
        None t = Ok (OneMember m) ->
      memberKeys m = memberKeys (ctxUser (context t)) ->
      team.verify (team.sign contents t) t = Ok true).
Proof.
  split; [reflexivity|].
  intros contents m Hsound Hm Hkeys. unfold team.verify, team.sign. simpl.
  rewrite Hm. simpl. rewrite Hkeys, Hsound. reflexivity.
Qed.

(** X12. Where [lookupIdentity] finds a valid device for the claim of a
    challenge, [verifyIdentityProof] finds the keys to check the proof
    against: the server's when the name is a server's host, else the
    device's; it throws only if the check of the proof does. The name is
    not the sentinel of the list overload of [servers]. *)
Theorem verifyIdentityProof_after_lookup (challenge : Challenge)
    (proof : string) (t : Team) (u d : string) :
  team.lookupIdentity (challengeScope challenge) t = Ok VALID_DEVICE ->
  parseDeviceId (scopeName (challengeScope challenge)) = (u, d) ->
  u <> ALL ->
  exists k,
    team.verifyIdentityProof challenge proof t
    = (v ← identityVerify challenge proof (Some k); Ok (isValid v)) /\
    (if team.hasServer u t
     then exists x,
         select.server (state t) u (select.mkOptions true) = Ok x /\
         k = serverKeys x
     else exists x,
         team.device u d (Some (select.mkOptions true)) t = Ok x /\
         k = deviceKeys x).
Proof.
  intros Hlook Hparse Hall.
  unfold team.lookupIdentity in Hlook. unfold team.verifyIdentityProof.
  destruct (bool_decide (scopeType (challengeScope challenge) = DEVICE));
    simpl in *; [|discriminate].
  rewrite Hparse in *.
  destruct (team.hasServer u t) eqn:Hsrv.
  - unfold team.servers. simpl.
    rewrite bool_decide_eq_false_2 by exact Hall.
    unfold team.hasServer, select.hasServer in Hsrv.
    unfold select.server. simpl. rewrite find_app_first.
    destruct (List.find _ (servers (state t))) as [x|] eqn:Hx.
    + simpl. exists (serverKeys x). split; [reflexivity | eauto].
    + apply find_none_existsb in Hx. congruence.
  - destruct (team.memberWasRemoved u t || team.serverWasRemoved u t);
      [discriminate|].
    rewrite andb_true_r in Hlook.
    destruct (negb (team.has u t)); [discriminate|].
    destruct (team.deviceWasRemoved u d t); [discriminate|].
    rewrite andb_true_r in Hlook.
    destruct (team.hasDevice u d t) eqn:Hdev; [|discriminate].
    unfold team.device, team.hasDevice, select.hasDevice in *.
    unfold select.device. simpl. rewrite find_app_first.
    destruct (List.find _ (select.memberDevices (state t) u)) as [x|] eqn:Hx.
    + simpl. exists (deviceKeys x). split; [reflexivity | eauto].
    + apply find_none_existsb in Hx. congruence.
Qed.

End Envelopes.


(** [join_reads_no_lockbox] on Eve's copy of Alice's graph, with a keyring
    that holds the team keys. *)
Lemma join_reads_no_lockbox_witness :
  team.teamKeys None eveOnAlicesGraph = Throw "Couldn't find keys: TEAM TEAM" /\
  team.join 1 [mkKeyset TEAM_SCOPE 0] eveOnAlicesGraph
  = (Ok tt,
     team.storeDispatch
       (ADD_DEVICE (laptop "eve")
          [lockbox.create (memberKeys (person "eve")) (deviceKeys (laptop "eve"))])
       eveOnAlicesGraph).
Proof.
  split; [reflexivity|].
  apply (join_reads_no_lockbox (H := localStore) 0 [mkKeyset TEAM_SCOPE 0]
           eveOnAlicesGraph).
  - reflexivity.
  - discriminate.
  - left. vm_compute. reflexivity.
Defined.

(** [admit_gate] on Alice's team after she invited a member with the seed
    [abc]. *)
Lemma admit_gate_witness :
  team.admitMember 1 1000 (mkProof "id:abc" "pk:abcid:abc")
    (createKeyset (mkScope USER "bob")) "bob" aliceInvited
  = team.dispatch 1
      (ADMIT_MEMBER "id:abc" "bob" (createKeyset (mkScope USER "bob"))
         [lockbox.create (mkKeyset TEAM_SCOPE 0)
                         (createKeyset (mkScope USER "bob"))])
      None aliceInvited /\
  team.admitDevice 1 1000 (mkProof "id:abc" "pk:abcid:abc") (laptop "bob")
    aliceInvited
  = (Throw "Can't admit someone else's device", aliceInvited) /\
  team.admitMember 1 1000 (mkProof "id:abc" "forged")
    (createKeyset (mkScope USER "bob")) "bob" aliceInvited
  = (Throw "Signature provided is not valid", aliceInvited).
Proof.
  destruct (admit_gate (H := localStore) 1 1000
              (mkProof "id:abc" "pk:abcid:abc") aliceInvited VALID
              ltac:(vm_compute; reflexivity)) as [_ Hvalid].
  destruct (Hvalid eq_refl) as (Hmember & Hother & _).
  destruct (admit_gate (H := localStore) 1 1000
              (mkProof "id:abc" "forged") aliceInvited
              (Invalid "Signature provided is not valid")
              ltac:(vm_compute; reflexivity)) as [Hinvalid _].
  destruct (Hinvalid eq_refl) as (Hforged & _).
  split; [|split].
  - apply Hmember. vm_compute. reflexivity.
  - apply Hother. vm_compute. discriminate.
  - apply Hforged.
Defined.

(** [createMemberLockboxes_generation_is_index] for Bob with the admin
    role, on Alice's team. *)
Lemma createMemberLockboxes_generation_is_index_witness :
  exists k,
    team.roleKeys ADMIN (Some 0%nat) (teamOf aliceAlone) = Ok k /\
    [lockbox.create (mkKeyset ADMIN_SCOPE 0) (createKeyset (mkScope USER "bob"));
     lockbox.create (mkKeyset TEAM_SCOPE 0) (createKeyset (mkScope USER "bob"))]
      !! 0%nat
    = Some (lockbox.create k (createKeyset (mkScope USER "bob"))).
Proof.
  destruct (createMemberLockboxes_generation_is_index
              (mkMember "bob" "bob" (createKeyset (mkScope USER "bob")) [ADMIN] [])
              (teamOf aliceAlone)
              [lockbox.create (mkKeyset ADMIN_SCOPE 0)
                              (createKeyset (mkScope USER "bob"));
               lockbox.create (mkKeyset TEAM_SCOPE 0)
                              (createKeyset (mkScope USER "bob"))]
              ltac:(vm_compute; reflexivity)) as (_ & Hroles & _).
  exact (Hroles 0%nat ADMIN eq_refl).
Defined.

Lemma stripPrefix_append (p s : string) : stripPrefix p (p +:+ s) = Some s.
Proof.
  induction p as [|a p IH]; simpl; [reflexivity|].
  rewrite bool_decide_eq_true_2 by reflexivity. exact IH.
Qed.

(** [encrypt_decrypt_round_trip] for the team scope on Alice's team. *)
Lemma encrypt_decrypt_round_trip_witness :
  team.decrypt (mkEncrypted "TEAM|hello" (mkKeyset TEAM_SCOPE 0))
    (teamOf aliceAlone) = Ok "hello".
Proof.
  destruct (encrypt_decrypt_round_trip (H0 := localCrypto)
              "hello" None (teamOf aliceAlone)
              (mkEncrypted "TEAM|hello" (mkKeyset TEAM_SCOPE 0))) as (Hd & _).
  - intros p k. cbn [symmetricDecrypt symmetricEncrypt localCrypto].
    rewrite stripPrefix_append. reflexivity.
  - vm_compute. reflexivity.
  - exact Hd.
Defined.

(** [verifyIdentityProof_after_lookup] for Alice's laptop on her team. *)
Lemma verifyIdentityProof_after_lookup_witness :
  team.verifyIdentityProof
    (mkChallenge (mkScope DEVICE "alice::laptop") "n1" 0) "alice::laptop|n1"
    (teamOf aliceAlone) = Ok true.
Proof.
  destruct (verifyIdentityProof_after_lookup (H := localStore)
              (H0 := localCrypto)
              (mkChallenge (mkScope DEVICE "alice::laptop") "n1" 0)
              "alice::laptop|n1" (teamOf aliceAlone) "alice" "laptop")
    as (k & Hv & Hk).
  - vm_compute. reflexivity.
  - reflexivity.
  - discriminate.
  - rewrite Hv. destruct Hk as (x & Hx & ->).
    vm_compute in Hx. injection Hx as <-. vm_compute. reflexivity.
Defined.

End FacadeFacts.


(** ** The facade on the store of the scenarios *)

Module StoreFacts.
Import scenario envelopes FacadeFacts.

(** On an instance in step with a store that is at rest, a dispatch is one
    step of the reducer. *)
Lemma localStore_dispatch (n : nat) (a : TeamAction) (t : Team) (k : Keyset) :
  let h := hashLink a (team.getUserId t) (head (graph t)) in
  let link := mkLink h a (team.getUserId t) (head (graph t)) in
  state t = getState (graph t) ->
  team.teamKeys None t = Ok k ->
  getLink (graph t) h = None ->
  pendingKeyRotations (reducer (state t) link) = [] ->
  team.dispatch (S n) a None t
  = (Ok tt,
     mkTeam (context t)
            (mkGraph (root (graph t)) [h] (links (graph t) ++ [(h, link)]))
            (reducer (state t) link)).
Proof.
  cbv zeta. intros Hsync Hk Hfresh Hp.
  assert (team.storeDispatch a t
          = mkTeam (context t)
              (mkGraph (root (graph t))
                 [hashLink a (team.getUserId t) (head (graph t))]
                 (links (graph t) ++
                  [(hashLink a (team.getUserId t) (head (graph t)),
                    mkLink (hashLink a (team.getUserId t) (head (graph t))) a
                           (team.getUserId t) (head (graph t)))]))
              (reducer (state t)
                 (mkLink (hashLink a (team.getUserId t) (head (graph t))) a
                         (team.getUserId t) (head (graph t))))) as Hstore.
  { unfold team.storeDispatch, team.setLink.
    unfold getLink in Hfresh. apply fmap_None in Hfresh.
    apply find_none_existsb in Hfresh. rewrite Hfresh.
    f_equal. cbn [getState localStore links].
    rewrite fmap_app, foldl_app, Hsync. reflexivity. }
  rewrite (TeamFacts.dispatch_no_pending n a t k Hk); rewrite Hstore;
    [reflexivity | exact Hp].
Qed.

(** A member's invitation of a device is put in the state. *)
Lemma reducer_invite_device (s : TeamState) (h : Hash) (i : Invitation)
    (who : string) (p : list Hash) :
  select.hasServer s who = false ->
  reducer s (mkLink h (INVITE_DEVICE i) who p)
  = setHead [h] (transforms.postInvitation i s).
Proof.
  intros Hwho. unfold reducer, authoredOnServer. cbn [action author hash].
  rewrite Hwho. reflexivity.
Qed.

(** X13. An invitation that [inviteDevice] makes without an expiration is good
    for thirty minutes from the call and no longer: on the instance that
    made it, the proof that the seed gives validates at every time before
    [now + 30 * 60 * 1000] and at none from then on. *)
Theorem device_invitation_lasts_30_minutes (n : nat) (now : Z) (seed : string)
    (t : Team) (k : Keyset) :
  let i :=
    createInvitation (normalize seed) (Some (now + 30 * 60 * 1000)) (Some 1)
                     (Some (team.getUserId t)) in
  let proof :=
    mkProof (invitationId i) (publicKey i +:+ invitationId i) in
  state t = getState (graph t) ->
  team.isServer t = false ->
  team.hasServer (team.getUserId t) t = false ->
  team.teamKeys None t = Ok k ->
  getLink (graph t)
    (hashLink (INVITE_DEVICE i) (team.getUserId t) (head (graph t))) = None ->
  pendingKeyRotations (state t) = [] ->
  exists t',
    team.inviteDevice (S n) now seed None t
    = (Ok (mkInviteResult (invitationId i) (normalize seed)), t') /\
    forall now',
      exists v,
        team.validateInvitation now' proof t' = Ok v /\
        (isValid v = true <-> now' < now + 30 * 60 * 1000).
Proof.
  cbv zeta. intros Hsync Hs Hhost Hk Hfresh Hp.
  unfold team.inviteDevice. rewrite bind_lift, Hs. cbn [negb assert].
  rewrite bind_lift. cbn beta iota. rewrite bind_eq.
  cbn [default].
  rewrite (localStore_dispatch n _ t k Hsync Hk Hfresh)
    by (rewrite reducer_invite_device by exact Hhost; exact Hp).
  rewrite reducer_invite_device by exact Hhost.
  eexists. split; [reflexivity|].
  intros now'.
  unfold team.validateInvitation, team.hasInvitation, team.getInvitation,
    select.hasInvitation, select.getInvitation.
  cbn [state transforms.postInvitation setHead setInvitations
       invitations proofId].
  rewrite lookup_insert_eq.
  rewrite bool_decide_eq_true_2 by eauto. cbn [negb assertSome].
  simpl.
  unfold invitations.invitationCanBeUsed, invitations.validate,
    invitations.fail.
  cbn [revoked uses maxUses expiration publicKey proofId signature verify
       localStore].
  change (0 <? 1) with true. cbn [negb].
  destruct (now' <? now + 30 * 60 * 1000) eqn:Hlt; cbn [negb isValid].
  - rewrite bool_decide_eq_true_2 by reflexivity.
    eexists. split; [reflexivity|]. apply Z.ltb_lt in Hlt. split; auto.
  - eexists. split; [reflexivity|]. apply Z.ltb_ge in Hlt.
    split; [discriminate | lia].
Qed.

Lemma mapMember_devices (s : TeamState) (u : string) (f : Member -> Member) :
  (forall m, userId (f m) = userId m) ->
  select.memberDevices (transforms.mapMember u f s) u
  = match List.find (fun m => bool_decide (userId m = u)) (members s) with
    | Some m => devices (f m)
    | None => []
    end.
Proof.
  intros Hf. unfold select.memberDevices, transforms.mapMember.
  cbn [members setMembers].
  induction (members s) as [|m ms IH]; [reflexivity|].
  rewrite fmap_cons. cbn [List.find].
  destruct (bool_decide (userId m = u)) eqn:Hm.
  - rewrite Hf, Hm. reflexivity.
  - rewrite Hm. exact IH.
Qed.

Lemma reducer_removes_device (s : TeamState) (h : Hash) (u d who : string)
    (lbs : list Lockbox) (p : list Hash) :
  select.hasDevice (reducer s (mkLink h (REMOVE_DEVICE u d lbs) who p)) u d
  = false.
Proof.
  unfold reducer, transforms.removeDevice, select.hasDevice.
  cbn [action hash].
  set (s' := transforms.collectLockboxes lbs s).
  set (f := fun m : Member => setMemberDevices _ m).
  assert (select.memberDevices
            (setHead [h]
               (setRemovedDevices
                  (removedDevices s' ++
                   List.filter (fun x => bool_decide (deviceName x = d))
                               (select.memberDevices s' u))
                  (transforms.mapMember u f s'))) u
          = select.memberDevices (transforms.mapMember u f s') u) as ->
    by reflexivity.
  rewrite mapMember_devices by reflexivity.
  destruct (List.find _ (members s')) as [m|]; [|reflexivity].
  subst f. cbn [devices setMemberDevices].
  induction (devices m) as [|x xs IH]; [reflexivity|]. cbn [List.filter].
  destruct (bool_decide (deviceName x = d)) eqn:Hx; cbn [negb existsb];
    [exact IH|]. rewrite Hx, IH. reflexivity.
Qed.

(** X15. [removeDevice] posts a link for a device that the member has and
    none for one that the member does not have: after the call for a
    device of the member the member has no such device, and the same call
    again returns at once and leaves the instance as it is, whether or not
    a dispatch could go through. *)
Theorem removeDevice_twice (n : nat) (u d : string) (t : Team) (k : Keyset) :
  state t = getState (graph t) ->
  team.teamKeys None t = Ok k ->
  getLink (graph t) ("#" +:+ String.concat "" (head (graph t))) = None ->
  pendingKeyRotations (state t) = [] ->
  team.hasDevice u d t = true ->
  exists t',
    team.removeDevice (S n) u d t = (Ok tt, t') /\
    length (links (graph t')) = S (length (links (graph t))) /\
    team.hasDevice u d t' = false /\
    forall fuel, team.removeDevice fuel u d t' = (Ok tt, t').
Proof.
  intros Hsync Hk Hfresh Hp Hd.
  destruct (removeDevice_unknown_is_noop (H := localStore) (S n) u d t)
    as [_ Hknown].
  rewrite (Hknown Hd).
  rewrite (localStore_dispatch n _ t k Hsync Hk Hfresh) by exact Hp.
  set (t' := mkTeam _ _ _). exists t'.
  assert (team.hasDevice u d t' = false) as Hgone
    by apply reducer_removes_device.
  split; [reflexivity|].
  split; [subst t'; cbn [graph links]; rewrite length_app; simpl; lia|].
  split; [exact Hgone|].
  intros fuel.
  destruct (removeDevice_unknown_is_noop (H := localStore) fuel u d t')
    as [Hnoop _].
  exact (Hnoop Hgone).
Qed.


Lemma validateInvitation_revoked (now : Z) (proof : ProofOfInvitation)
    (t : Team) (i : Invitation) :
  invitations (state t) !! proofId proof = Some i ->
  revoked i = true ->
  team.validateInvitation now proof t
  = Ok (Invalid "This invitation has been revoked.").
Proof.
  intros Hi Hr.
  unfold team.validateInvitation, team.hasInvitation, team.getInvitation,
    select.hasInvitation, select.getInvitation.
  rewrite Hi, bool_decide_eq_true_2 by eauto. simpl.
  unfold invitations.invitationCanBeUsed. rewrite Hr. reflexivity.
Qed.

Lemma validateInvitation_unknown (now : Z) (proof : ProofOfInvitation)
    (t : Team) :
  invitations (state t) !! proofId proof = None ->
  team.validateInvitation now proof t
  = Ok (Invalid "This invitation code doesn't match.").
Proof.
  intros Hi.
  unfold team.validateInvitation, team.hasInvitation, select.hasInvitation.
  rewrite Hi, bool_decide_eq_false_2 by (intros [? ?]; discriminate).
  reflexivity.
Qed.



(** X17. After [revokeInvitation(id)], no proof for that id validates at
    any time, and [admitMember] and [admitDevice] with such a proof throw
    and post nothing. *)
Theorem revoked_invitation_admits_nobody (n : nat) (id : string) (t : Team)
    (k : Keyset) :
  state t = getState (graph t) ->
  team.teamKeys None t = Ok k ->
  getLink (graph t) ("#" +:+ String.concat "" (head (graph t))) = None ->
  pendingKeyRotations (state t) = [] ->
  exists t',
    team.revokeInvitation (S n) id t = (Ok tt, t') /\
    forall fuel now sig,
      (exists msg,
          team.validateInvitation now (mkProof id sig) t' = Ok (Invalid msg)) /\
      (forall mkeys uname,
          failsUnchanged (team.admitMember fuel now (mkProof id sig) mkeys uname)
                         t') /\
      (forall d,
          failsUnchanged (team.admitDevice fuel now (mkProof id sig) d) t').
Proof.
  intros Hsync Hk Hfresh Hp. unfold team.revokeInvitation.
  rewrite (localStore_dispatch n _ t k Hsync Hk Hfresh) by exact Hp.
  set (t' := mkTeam _ _ _). exists t'. split; [reflexivity|].
  intros fuel now sig.
  assert (exists msg,
             team.validateInvitation now (mkProof id sig) t'
             = Ok (Invalid msg)) as [msg Hmsg].
  { destruct (invitations (state t) !! id) as [i|] eqn:Hi.
    - eexists. apply (validateInvitation_revoked now _ t'
        (mkInvitation (invitationId i) (publicKey i) (expiration i)
           (maxUses i) (uses i) true (invitationUserId i))); [|reflexivity].
      subst t'. cbn [state proofId]. unfold reducer. cbn [action].
      unfold transforms.revokeInvitation.
      cbn [invitations setHead setInvitations].
      rewrite lookup_alter_eq, Hi. reflexivity.
    - eexists. apply validateInvitation_unknown.
      subst t'. cbn [state proofId]. unfold reducer. cbn [action].
      unfold transforms.revokeInvitation.
      cbn [invitations setHead setInvitations].
      rewrite lookup_alter_eq, Hi. reflexivity. }
  split; [eauto|].
  destruct (admit_invalid (H := localStore) fuel now (mkProof id sig) t'
              (Invalid msg) Hmsg eq_refl) as [Hm Hd].
  split; intros; eexists; [apply Hm | apply Hd].
Qed.

(** [device_invitation_lasts_30_minutes] on Alice's team, at the last
    millisecond and at the thirtieth minute. *)
Lemma device_invitation_lasts_30_minutes_witness :
  exists t',
    team.inviteDevice 1 1000 "abc" None (teamOf aliceAlone)
    = (Ok (mkInviteResult "id:abc" "abc"), t') /\
    (exists v,
        team.validateInvitation 1800999 (mkProof "id:abc" "pk:abcid:abc") t'
        = Ok v /\ isValid v = true) /\
    (exists v,
        team.validateInvitation 1801000 (mkProof "id:abc" "pk:abcid:abc") t'
        = Ok v /\ isValid v = false).
Proof.
  destruct (device_invitation_lasts_30_minutes 0 1000 "abc" (teamOf aliceAlone)
              (mkKeyset TEAM_SCOPE 0)
              ltac:(vm_compute; reflexivity) eq_refl eq_refl eq_refl eq_refl
              eq_refl)
    as (t' & Hcall & Hvalid).
  exists t'. split; [exact Hcall|]. split.
  - destruct (Hvalid 1800999) as (v & Hv & Hiff).
    exists v. split; [exact Hv|]. apply Hiff. reflexivity.
  - destruct (Hvalid 1801000) as (v & Hv & Hiff).
    exists v. split; [exact Hv|].
    destruct (isValid v); [|reflexivity].
    destruct Hiff as [Hlt _]. specialize (Hlt eq_refl). discriminate Hlt.
Defined.

(** [removeDevice_twice] for Bob's laptop on the team of Alice and Bob. *)
Lemma removeDevice_twice_witness :
  exists t',
    team.removeDevice 1 "bob" "laptop" (teamOf (aliceAndBobAdmin 1))
    = (Ok tt, t') /\
    team.hasDevice "bob" "laptop" t' = false /\
    team.removeDevice 0 "bob" "laptop" t' = (Ok tt, t').
Proof.
  destruct (removeDevice_twice 0 "bob" "laptop" (teamOf (aliceAndBobAdmin 1))
              (mkKeyset TEAM_SCOPE 0)
              ltac:(vm_compute; reflexivity) eq_refl eq_refl eq_refl eq_refl)
    as (t' & Hcall & _ & Hgone & Hagain).
  exists t'. split; [exact Hcall|]. split; [exact Hgone | apply Hagain].
Defined.


(** [revoked_invitation_admits_nobody] for the invitation of
    [aliceInvited]. *)
Lemma revoked_invitation_admits_nobody_witness :
  exists t',
    team.revokeInvitation 1 "id:abc" aliceInvited = (Ok tt, t') /\
    failsUnchanged
      (team.admitMember 1 1000 (mkProof "id:abc" "pk:abcid:abc")
         (createKeyset (mkScope USER "bob")) "bob") t'.
Proof.
  destruct (revoked_invitation_admits_nobody 0 "id:abc" aliceInvited
              (mkKeyset TEAM_SCOPE 0)
              ltac:(vm_compute; reflexivity) eq_refl eq_refl eq_refl)
    as (t' & Hcall & Hafter).
  exists t'. split; [exact Hcall|].
  destruct (Hafter 1%nat 1000 "pk:abcid:abc") as (_ & Hm & _). apply Hm.
Defined.

(** Scenario 6 of the specification, invite and admit: Alice invites with
    the seed [abc 123] and gives no expiration and no number of uses; the
    seed comes back normalised, the proof made from it validates, and
    [admitMember] makes Bob a member. *)
Example invite_and_admit :
  exists t t' bob,
    team.inviteMember 1 "abc 123" None None (teamOf aliceAlone)
    = (Ok (mkInviteResult "id:abc123" "abc123"), t) /\
    team.validateInvitation 1700000000000
      (mkProof "id:abc123" "pk:abc123id:abc123") t = Ok VALID /\
    team.admitMember 1 1700000000000
      (mkProof "id:abc123" "pk:abc123id:abc123")
      (createKeyset (mkScope USER "bob")) "bob" t = (Ok tt, t') /\
    team.has "bob" t' = true /\
    team.members (Some "bob") None t' = Ok (OneMember bob) /\
    userId bob = "bob".
Proof.
  eexists _, _, _.
  split; [vm_compute; reflexivity|].
  split; [vm_compute; reflexivity|].
  split; [vm_compute; reflexivity|].
  split; [vm_compute; reflexivity|].
  split; vm_compute; reflexivity.
Qed.

End StoreFacts.
